(** * setlist-spotify: the playlist pipeline

    A shallow embedding of the TypeScript sources

      - [src/setlist-fetcher.ts]  (the setlist aggregator),
      - [src/track-matcher.ts]    (the track resolver),
      - [src/playlist-creator.ts] (the playlist builder),
      - [src/index.ts]            (the orchestrator),
      - [src/error-handler.ts]    (the error classes, [logError] and the
                                   answer to a failure),
      - [netlify/functions/create-playlist.ts] (the request the HTTP handler
                                   builds from an event),

    followed by the properties of the pipeline.

    Conventions of the embedding.
      - A JavaScript string is the list of its UTF-16 code units, so that
        [String.prototype.trim] and the em-dash of the playlist name are the
        ones of the language, not of an encoding.
      - A JavaScript number is an IEEE 754 double.  The numbers of this
        program are integers (a year, a frequency, a position, an HTTP
        status) and are kept as the [Z] they denote.  A frequency and a
        position are bounded by the length of an array and a status by the
        protocol, so that their arithmetic is exact; a year is whatever the
        caller gives, so that an operation on a year returns the nearest
        double ([roundDouble]) and its text is the one of Number::toString
        ([numberToString]), which is the decimal numeral up to 2^53 only.
        NaN, the infinities and the fractions are not numbers of the model:
        a year is taken to be an integer, and [parseInt] to stay below the
        largest double.
      - An [async] function is a computation in the monad [M]: it reads the
        outside world, appends the requests it issues to a trace and either
        returns a value or throws.
      - The outside world answers a request as a function of every request
        issued before it, so that nothing is assumed about the services. *)

From Stdlib Require Import String Ascii ZArith NArith List Lia Bool.
From Stdlib Require Import Permutation Sorted DecimalString DecimalZ.
Import ListNotations.

Local Open Scope Z_scope.

(** ** JavaScript strings and numbers *)

Module Js.

(** A string, as its UTF-16 code units. *)
Definition jsstring : Type := list N.

(** A source literal made of ASCII characters. *)
Definition str (s : string) : jsstring :=
  map N_of_ascii (list_ascii_of_string s).

Definition eq_dec : forall a b : jsstring, {a = b} + {a <> b} :=
  list_eq_dec N.eq_dec.

(** [a === b] on strings. *)
Definition eqb (a b : jsstring) : bool :=
  if eq_dec a b then true else false.

(** [!s] for a string: only the empty string is falsy. *)
Definition falsy (s : jsstring) : bool :=
  match s with [] => true | _ :: _ => false end.

(** The code units that [trim] strips: WhiteSpace and LineTerminator of
    ECMAScript (all of them lie in the basic plane). *)
Definition isWhiteSpace (c : N) : bool :=
  (((9 <=? c) && (c <=? 13)) || (c =? 32) || (c =? 160) || (c =? 5760)
   || ((8192 <=? c) && (c <=? 8202)) || (c =? 8232) || (c =? 8233)
   || (c =? 8239) || (c =? 8287) || (c =? 12288) || (c =? 65279))%N.

Fixpoint trimStart (s : jsstring) : jsstring :=
  match s with
  | [] => []
  | c :: s' => if isWhiteSpace c then trimStart s' else s
  end.

Definition trimEnd (s : jsstring) : jsstring := rev (trimStart (rev s)).

Definition trim (s : jsstring) : jsstring := trimEnd (trimStart s).

(** [Number.isSafeInteger]: an integer below 2^53 in absolute value.  The
    safe integers are doubles, and their sums and differences are exact as
    long as they are safe. *)
Definition safeInteger (n : Z) : Prop := Z.abs n < 2 ^ 53.

(** The double nearest to the integer [z], the one with the even
    significand of two at the same distance: what the language makes of an
    arithmetic result or of a numeral that is exactly [z].  A double has 53
    significant bits, so that [e] low bits of [z] are rounded away. *)
Definition roundDouble (z : Z) : Z :=
  let a := Z.abs z in
  let e := Z.log2 a - 52 in
  if e <=? 0 then z
  else
    let q := a / 2 ^ e in
    let r := a mod 2 ^ e in
    let half := 2 ^ (e - 1) in
    let q' := if r <? half then q
              else if half <? r then q + 1
              else if Z.even q then q else q + 1 in
    Z.sgn z * (q' * 2 ^ e).

(** [a - b] on numbers. *)
Definition subtract (a b : Z) : Z := roundDouble (a - b).

(** The decimal numeral of an integer. *)
Definition decimal (n : Z) : jsstring :=
  str (NilZero.string_of_int (Z.to_int n)).

Definition digitCount (x : Z) : Z := Z.of_nat (List.length (decimal x)).

(** Number::toString looks for integers [n], [k] and [s] with [k] as small
    as possible such that [s] has [k] digits and [s * 10^(n-k)] is read as
    [x].  For given [n] and [k], the candidates are the multiples of
    [10^(n-k)] next to [x]. *)
Definition candidates (x n k : Z) : list (Z * Z) :=
  let unit := 10 ^ (n - k) in
  let s0 := x / unit in
  filter (fun c : Z * Z =>
            let s := snd c in
            (10 ^ (k - 1) <=? s) && (s <? 10 ^ k)
            && (roundDouble (s * unit) =? x))
    [(n, s0); (n, s0 + 1)].

(** Of two candidates the one nearer to [x], the even one at the same
    distance. *)
Definition closer (x k : Z) (a b : Z * Z) : Z * Z :=
  let dist := fun c : Z * Z => Z.abs (snd c * 10 ^ (fst c - k) - x) in
  if dist a <? dist b then a
  else if dist b <? dist a then b
  else if Z.even (snd a) then a else b.

(** [(n, k, s)] for an integer [x] of [d] digits, trying [k], [k + 1],
    ...; seventeen digits tell any two doubles apart. *)
Fixpoint shortest (fuel : nat) (x d k : Z) : Z * Z * Z :=
  match fuel with
  | O => (d, d, x)
  | S fuel' =>
      match candidates x d k ++ candidates x (d + 1) k with
      | [] => shortest fuel' x d (k + 1)
      | c :: cs =>
          let best := fold_left (closer x k) cs c in
          (fst best, k, snd best)
      end
  end.

(** Number::toString for a positive integer: the digits of [s] and [n - k]
    zeros up to 21 digits, the exponent form beyond. *)
Definition positiveToString (x : Z) : jsstring :=
  let '(n, k, s) := shortest 17 x (digitCount x) 1 in
  if n <=? 21 then decimal s ++ repeat 48%N (Z.to_nat (n - k))
  else
    match decimal s with
    | [] => []
    | first :: rest =>
        first :: (match rest with [] => [] | _ => 46%N :: rest end)
        ++ str "e+" ++ decimal (n - 1)
    end.

(** [`${n}`]: the text of the number that [n] is.  Up to 2^53 every integer
    is a double next to no other integer, and the shortest digits that are
    read back as it are its own. *)
Definition numberToString (n : Z) : jsstring :=
  let x := roundDouble n in
  if Z.abs x <? 2 ^ 53 then decimal x
  else if x <? 0 then 45%N :: positiveToString (- x)
  else positiveToString x.

(** U+2014 EM DASH. *)
Definition emDash : N := 8212%N.

(** A value stored in a [Record<string, unknown>] or sent in a request. *)
Inductive value : Type :=
| VUndefined
| VNumber (n : Z)
| VString (s : jsstring).

Definition object : Type := list (string * value).

(** [x?.status] put in an object literal. *)
Definition optNumber (o : option Z) : value :=
  match o with Some n => VNumber n | None => VUndefined end.

(** [Array.prototype.sort(compare)]: the result is ordered by [compare] and,
    as the language requires since ES2019, stable.  Insertion from the right
    puts an element before the first one it does not have to follow. *)
Fixpoint sortInsert {A : Type} (compare : A -> A -> Z) (x : A) (l : list A)
  : list A :=
  match l with
  | [] => [x]
  | y :: l' =>
      if compare x y <=? 0 then x :: y :: l'
      else y :: sortInsert compare x l'
  end.

Fixpoint sort {A : Type} (compare : A -> A -> Z) (l : list A) : list A :=
  match l with
  | [] => []
  | x :: l' => sortInsert compare x (sort compare l')
  end.

(** [Array.prototype.map((x, index) => ...)], from index [i] on. *)
Fixpoint mapIndexFrom {A B : Type} (f : A -> nat -> B) (i : nat) (l : list A)
  : list B :=
  match l with
  | [] => []
  | x :: l' => f x i :: mapIndexFrom f (S i) l'
  end.

Definition mapIndex {A B : Type} (f : A -> nat -> B) (l : list A) : list B :=
  mapIndexFrom f 0%nat l.

(** A [Map<string, number>]: its entries in insertion order.  [mapSet] on a
    key that is present replaces the value in place, on a new key appends
    the entry. *)
Definition Map : Type := list (jsstring * Z).

Fixpoint mapGet (m : Map) (k : jsstring) : option Z :=
  match m with
  | [] => None
  | (k', v) :: m' => if eq_dec k' k then Some v else mapGet m' k
  end.

Fixpoint mapSet (m : Map) (k : jsstring) (v : Z) : Map :=
  match m with
  | [] => [(k, v)]
  | (k', v') :: m' =>
      if eq_dec k' k then (k', v) :: m' else (k', v') :: mapSet m' k v
  end.

(** [x || 0] for [x : number | undefined]. *)
Definition orZero (x : option Z) : Z :=
  match x with
  | Some n => if n =? 0 then 0 else n
  | None => 0
  end.

End Js.

Import Js.

(** ** error-handler.ts: what the program throws *)

(** The four error classes of the program, the error axios rejects with, any
    other instance of [Error], and a thrown value that is no [Error]. *)
Inductive Thrown : Type :=
| AuthenticationError (message : jsstring) (details : object)
| ExternalAPIError (message : jsstring) (serviceName : jsstring)
                   (details : object)
| DataNotFoundError (message : jsstring) (details : object)
| ValidationError (message : jsstring) (details : object)
| AxiosError (message : jsstring) (status : option Z)
| OtherError (message : jsstring)
| NonError.

Definition instanceofError (e : Thrown) : bool :=
  match e with NonError => false | _ => true end.

Definition instanceofAuthenticationError (e : Thrown) : bool :=
  match e with AuthenticationError _ _ => true | _ => false end.

Definition instanceofExternalAPIError (e : Thrown) : bool :=
  match e with ExternalAPIError _ _ _ => true | _ => false end.

Definition instanceofDataNotFoundError (e : Thrown) : bool :=
  match e with DataNotFoundError _ _ => true | _ => false end.

Definition isAxiosError (e : Thrown) : bool :=
  match e with AxiosError _ _ => true | _ => false end.

(** [error.message] *)
Definition errorMessage (e : Thrown) : jsstring :=
  match e with
  | AuthenticationError m _ | ExternalAPIError m _ _ | DataNotFoundError m _
  | ValidationError m _ | AxiosError m _ | OtherError m => m
  | NonError => []
  end.

(** [error.name] *)
Definition errorName (e : Thrown) : jsstring :=
  match e with
  | AuthenticationError _ _ => str "AuthenticationError"
  | ExternalAPIError _ _ _ => str "ExternalAPIError"
  | DataNotFoundError _ _ => str "DataNotFoundError"
  | ValidationError _ _ => str "ValidationError"
  | AxiosError _ _ => str "AxiosError"
  | OtherError _ => str "Error"
  | NonError => []
  end.

(** [error.response?.status] *)
Definition responseStatus (e : Thrown) : option Z :=
  match e with AxiosError _ s => s | _ => None end.

(** [axios.isAxiosError(error) && error.response?.status === 401] *)
Definition isUnauthorized (e : Thrown) : bool :=
  isAxiosError e &&
  match responseStatus e with Some s => s =? 401 | None => false end.

(** ** The data of the three stages *)

(** setlist-fetcher.ts *)
Record SetlistSong : Type := { name : jsstring; position : Z }.

Record AverageSetlistParams : Type :=
  { asp_artistId : jsstring; asp_year : option Z }.

(** [SetlistFmResponse]; a field the code tests before it reads it is
    optional here. *)
Record FmSong : Type := { fm_name : jsstring }.
Record FmSet : Type := { song : option (list FmSong) }.
Record FmSets : Type := { set : option (list FmSet) }.
Record FmSetlist : Type := { sets : option FmSets }.
Record SetlistFmResponse : Type := { setlist : option (list FmSetlist) }.

(** track-matcher.ts *)
Record TrackSearchResult : Type :=
  { songName : jsstring; trackUri : option jsstring; found : bool }.

Record SpotifyTrack : Type :=
  { uri : jsstring; track_name : jsstring; artists : list jsstring }.

Record SpotifyTracks : Type := { items : list SpotifyTrack }.

Record SpotifySearchResponse : Type := { tracks : SpotifyTracks }.

(** playlist-creator.ts *)
Record PlaylistCreationParams : Type :=
  { pcp_artistName : jsstring; pcp_year : Z;
    pcp_trackUris : list jsstring; pcp_accessToken : jsstring }.

Record PlaylistCreationResult : Type :=
  { playlistId : jsstring; tracksAdded : Z; year : Z }.

Record SpotifyUserResponse : Type :=
  { user_id : jsstring; display_name : jsstring }.

Record SpotifyPlaylistResponse : Type :=
  { playlist_id : jsstring; playlist_name : jsstring; playlist_public : bool }.

(** index.ts.  The three strings are tested with [!x] before use, so a
    request may lack them. *)
Record CreatePlaylistRequest : Type :=
  { artistId : option jsstring; artistName : option jsstring;
    req_year : option Z; accessToken : option jsstring }.

(** ** The outside world *)

(** The HTTP requests of the program, with what the code puts in them. *)
Inductive Call : Type :=
| GetSetlists (url : jsstring) (year : Z) (apiKey : jsstring)
| GetSearch (url : jsstring) (q : jsstring) (type : jsstring) (limit : Z)
            (authorization : jsstring)
| GetMe (url : jsstring) (authorization : jsstring)
| PostPlaylist (url : jsstring) (name : jsstring) (public : bool)
               (description : jsstring) (authorization : jsstring)
| PostTracks (url : jsstring) (uris : list jsstring)
             (authorization : jsstring).

(** [response.data] of each request. *)
Definition Reply (c : Call) : Type :=
  match c with
  | GetSetlists _ _ _ => SetlistFmResponse
  | GetSearch _ _ _ _ _ => SpotifySearchResponse
  | GetMe _ _ => SpotifyUserResponse
  | PostPlaylist _ _ _ _ _ => SpotifyPlaylistResponse
  | PostTracks _ _ _ => unit
  end.

(** A promise settles: it resolves with a value or rejects with a reason. *)
Inductive Outcome (A : Type) : Type :=
| Resolved (data : A)
| Rejected (reason : Thrown).
Arguments Resolved {A} data.
Arguments Rejected {A} reason.

(** The world: the services behind axios, the clock and [process.env].  The
    services and the clock may answer differently as the run proceeds: they
    see the requests issued so far. *)
Record World : Type :=
  { http : list Call -> forall c : Call, Outcome (Reply c);
    getFullYear : list Call -> Z;
    SETLISTFM_API_KEY : option jsstring }.

(** One entry written by [logError]. *)
Record LogEntry : Type :=
  { errorType : jsstring; logMessage : jsstring; context : object }.

(** What a run leaves behind: the requests issued, oldest first, and the
    console. *)
Record State : Type := { calls : list Call; console : list LogEntry }.

Definition initial : State := {| calls := []; console := [] |}.

(** ** The monad of asynchronous computations *)

Inductive Result (A : Type) : Type :=
| Ok (a : A)
| Throw (e : Thrown).
Arguments Ok {A} a.
Arguments Throw {A} e.

Definition M (A : Type) : Type := World -> State -> State * Result A.

Definition ret {A : Type} (a : A) : M A := fun _ s => (s, Ok a).

Definition throw {A : Type} (e : Thrown) : M A := fun _ s => (s, Throw e).

Definition bind {A B : Type} (m : M A) (k : A -> M B) : M B :=
  fun w s =>
    match m w s with
    | (s', Ok a) => k a w s'
    | (s', Throw e) => (s', Throw e)
    end.

(** [try { m } catch (error) { handler error }] *)
Definition tryCatch {A : Type} (m : M A) (handler : Thrown -> M A) : M A :=
  fun w s =>
    match m w s with
    | (s', Ok a) => (s', Ok a)
    | (s', Throw e) => handler e w s'
    end.

Declare Scope async_scope.
Delimit Scope async_scope with async.
Notation "x <- m ;; k" := (bind m (fun x => k))
  (at level 61, m at next level, right associativity) : async_scope.
Notation "m ;; k" := (bind m (fun _ => k))
  (at level 61, right associativity) : async_scope.
Local Open Scope async_scope.

(** [await axios.get(...)] / [await axios.post(...)]: the request is issued,
    and the world settles it. *)
Definition axios (c : Call) : M (Reply c) :=
  fun w s =>
    let s' := {| calls := calls s ++ [c]; console := console s |} in
    match http w (calls s) c with
    | Resolved data => (s', Ok data)
    | Rejected reason => (s', Throw reason)
    end.

(** [new Date().getFullYear()] *)
Definition currentYear : M Z := fun w s => (s, Ok (getFullYear w (calls s))).

(** [process.env.SETLISTFM_API_KEY] *)
Definition envApiKey : M (option jsstring) :=
  fun w s => (s, Ok (SETLISTFM_API_KEY w)).

(** error-handler.ts, [logError]: one entry on the console (the timestamp and
    the stack of the entry are left out). *)
Definition logError (error : Thrown) (ctx : object) : M unit :=
  fun _ s =>
    ({| calls := calls s;
        console := console s ++
                   [{| errorType := errorName error;
                       logMessage := errorMessage error;
                       context := ctx |}] |}, Ok tt).

(** ** setlist-fetcher.ts *)

(** The body of the innermost loop of [fetchSetlistForYear]. *)
Definition countSong (songFrequency : Map) (s : FmSong) : Map :=
  let count := orZero (mapGet songFrequency (fm_name s)) in
  mapSet songFrequency (fm_name s) (count + 1).

(** [if (set.song) for (const song of set.song) ...] *)
Definition countSet (songFrequency : Map) (s : FmSet) : Map :=
  match song s with
  | Some songs => fold_left countSong songs songFrequency
  | None => songFrequency
  end.

(** [if (setlist.sets?.set) for (const set of setlist.sets.set) ...] *)
Definition countSetlist (songFrequency : Map) (sl : FmSetlist) : Map :=
  match sets sl with
  | Some ss =>
      match set ss with
      | Some l => fold_left countSet l songFrequency
      | None => songFrequency
      end
  | None => songFrequency
  end.

(** [if (response.data.setlist) for (const setlist of ...) ...], from the
    empty map. *)
Definition countSongs (data : SetlistFmResponse) : Map :=
  match setlist data with
  | Some l => fold_left countSetlist l []
  | None => []
  end.

(** [Array.from(songFrequency.entries()).sort((a, b) => b[1] - a[1])
      .map(([name], index) => ({ name, position: index + 1 }))] *)
Definition sortedSongs (songFrequency : Map) : list SetlistSong :=
  mapIndex
    (fun entry index =>
       {| name := fst entry; position := Z.of_nat index + 1 |})
    (sort (fun a b => snd b - snd a) songFrequency).

Definition setlistsUrl (artistId : jsstring) : jsstring :=
  str "https://api.setlist.fm/rest/1.0/artist/" ++ artistId
  ++ str "/setlists".

Definition fetchSetlistForYear (artistId : jsstring) (year : Z)
    (apiKey : jsstring) : M (list SetlistSong) :=
  tryCatch
    (let url := setlistsUrl artistId in
     response <- axios (GetSetlists url year apiKey) ;;
     ret (sortedSongs (countSongs response)))
    (fun error =>
       if isAxiosError error then
         let apiError :=
           ExternalAPIError
             (str "setlist.fm API request failed: " ++ errorMessage error)
             (str "setlist.fm")
             [("statusCode"%string, optNumber (responseStatus error));
              ("year"%string, VNumber year)] in
         logError apiError
           [("artistId"%string, VString artistId);
            ("year"%string, VNumber year)] ;;
         throw apiError
       else throw error).

Definition noDataMessage (artistId : jsstring) (targetYear retryYear : Z)
  : jsstring :=
  str "No setlist data found for artist " ++ artistId ++ str " in years "
  ++ numberToString targetYear ++ str " or " ++ numberToString retryYear.

Definition getAverageSetlist (params : AverageSetlistParams)
    (apiKey : jsstring) : M (list SetlistSong) :=
  let artistId := asp_artistId params in
  let year := asp_year params in
  targetYear <- match year with
                | Some y => ret y
                | None => currentYear
                end ;;
  tryCatch
    (songs <- fetchSetlistForYear artistId targetYear apiKey ;;
     if (length songs =? 0)%nat then
       let retryYear := subtract targetYear 1 in
       retrySongs <- fetchSetlistForYear artistId retryYear apiKey ;;
       if (length retrySongs =? 0)%nat then
         let error :=
           DataNotFoundError
             (noDataMessage artistId targetYear retryYear)
             [("artistId"%string, VString artistId);
              ("targetYear"%string, VNumber targetYear);
              ("retryYear"%string, VNumber retryYear)] in
         logError error
           [("artistId"%string, VString artistId);
            ("targetYear"%string, VNumber targetYear);
            ("retryYear"%string, VNumber retryYear)] ;;
         throw error
       else ret retrySongs
     else ret songs)
    (fun error =>
       let ctx := [("artistId"%string, VString artistId);
                   ("year"%string, VNumber targetYear)] in
       if instanceofExternalAPIError error
          || instanceofDataNotFoundError error then throw error
       else if isAxiosError error then
         let apiError :=
           ExternalAPIError
             (str "setlist.fm API is unavailable: " ++ errorMessage error)
             (str "setlist.fm")
             [("statusCode"%string, optNumber (responseStatus error))] in
         logError apiError ctx ;; throw apiError
       else if instanceofError error then
         let wrappedError :=
           ExternalAPIError
             (str "Failed to fetch setlist: " ++ errorMessage error)
             (str "setlist.fm") [] in
         logError wrappedError ctx ;; throw wrappedError
       else
         let unknownError :=
           ExternalAPIError
             (str "Failed to fetch setlist with unknown error")
             (str "setlist.fm") [] in
         logError unknownError ctx ;; throw unknownError).

(** ** track-matcher.ts *)

Definition searchUrl : jsstring := str "https://api.spotify.com/v1/search".

Definition bearer (accessToken : jsstring) : jsstring :=
  str "Bearer " ++ accessToken.

Definition searchQuery (songName artistName : jsstring) : jsstring :=
  str "track:" ++ songName ++ str " artist:" ++ artistName.

Definition notFound (song : jsstring) : TrackSearchResult :=
  {| songName := song; trackUri := None; found := false |}.

Definition searchSpotifyTrack (song artistName accessToken : jsstring)
  : M TrackSearchResult :=
  tryCatch
    (let query := searchQuery song artistName in
     let url := searchUrl in
     response <- axios (GetSearch url query (str "track") 1
                          (bearer accessToken)) ;;
     match items (tracks response) with
     | track :: _ =>
         ret {| songName := song; trackUri := Some (uri track);
                found := true |}
     | [] => ret (notFound song)
     end)
    (fun error =>
       if isUnauthorized error then
         throw (AuthenticationError
                  (str "Invalid or expired access token")
                  [("statusCode"%string, optNumber (responseStatus error))])
       else ret (notFound song)).

(** The [for ... of] loop of [matchAllTracks], [results] being the array
    pushed to. *)
Fixpoint matchLoop (songs : list SetlistSong)
    (artistName accessToken : jsstring) (results : list TrackSearchResult)
  : M (list TrackSearchResult) :=
  match songs with
  | [] => ret results
  | song :: rest =>
      result <- searchSpotifyTrack (name song) artistName accessToken ;;
      matchLoop rest artistName accessToken (results ++ [result])
  end.

Definition matchAllTracks (songs : list SetlistSong)
    (artistName accessToken : jsstring) : M (list TrackSearchResult) :=
  matchLoop songs artistName accessToken [].

(** ** playlist-creator.ts *)

Definition meUrl : jsstring := str "https://api.spotify.com/v1/me".

(** The handler shared by the three requests of the builder: 401 becomes an
    [AuthenticationError], any other axios error an [ExternalAPIError], and
    anything else is thrown again. *)
Definition spotifyFailure {A : Type} (ctx : object) (error : Thrown) : M A :=
  if isAxiosError error then
    if match responseStatus error with Some s => s =? 401 | None => false end
    then
      let authError :=
        AuthenticationError
          (str "Invalid or expired access token")
          [("statusCode"%string, optNumber (responseStatus error))] in
      logError authError ctx ;; throw authError
    else
      let apiError :=
        ExternalAPIError
          (str "Spotify API is unavailable: " ++ errorMessage error)
          (str "Spotify")
          [("statusCode"%string, optNumber (responseStatus error))] in
      logError apiError ctx ;; throw apiError
  else throw error.

Definition getUserId (accessToken : jsstring) : M jsstring :=
  tryCatch
    (let url := meUrl in
     response <- axios (GetMe url (bearer accessToken)) ;;
     ret (user_id response))
    (spotifyFailure []).

Definition playlistsUrl (userId : jsstring) : jsstring :=
  str "https://api.spotify.com/v1/users/" ++ userId ++ str "/playlists".

(** [`${artistName} — Average Setlist ${year}`] *)
Definition playlistName (artistName : jsstring) (year : Z) : jsstring :=
  artistName ++ str " " ++ [emDash] ++ str " Average Setlist "
  ++ numberToString year.

Definition playlistDescription (artistName : jsstring) (year : Z)
  : jsstring :=
  str "Average setlist for " ++ artistName ++ str " in "
  ++ numberToString year.

Definition createSpotifyPlaylist (userId artistName : jsstring) (year : Z)
    (accessToken : jsstring) : M jsstring :=
  tryCatch
    (let url := playlistsUrl userId in
     let name := playlistName artistName year in
     response <- axios (PostPlaylist url name false
                          (playlistDescription artistName year)
                          (bearer accessToken)) ;;
     ret (playlist_id response))
    (spotifyFailure [("artistName"%string, VString artistName);
                     ("year"%string, VNumber year)]).

Definition tracksUrl (playlistId : jsstring) : jsstring :=
  str "https://api.spotify.com/v1/playlists/" ++ playlistId
  ++ str "/tracks".

Definition addTracksToPlaylist (playlistId : jsstring)
    (trackUris : list jsstring) (accessToken : jsstring) : M unit :=
  if (length trackUris =? 0)%nat then ret tt
  else
    tryCatch
      (let url := tracksUrl playlistId in
       axios (PostTracks url trackUris (bearer accessToken)))
      (spotifyFailure
         [("playlistId"%string, VString playlistId);
          ("trackCount"%string, VNumber (Z.of_nat (length trackUris)))]).

Definition createPlaylist (params : PlaylistCreationParams)
  : M PlaylistCreationResult :=
  let artistName := pcp_artistName params in
  let year := pcp_year params in
  let trackUris := pcp_trackUris params in
  let accessToken := pcp_accessToken params in
  tryCatch
    (userId <- getUserId accessToken ;;
     playlistId <- createSpotifyPlaylist userId artistName year accessToken ;;
     addTracksToPlaylist playlistId trackUris accessToken ;;
     ret {| playlistId := playlistId;
            tracksAdded := Z.of_nat (length trackUris);
            year := year |})
    (fun error =>
       (if instanceofError error then
          logError error
            [("artistName"%string, VString artistName);
             ("year"%string, VNumber year);
             ("trackCount"%string, VNumber (Z.of_nat (length trackUris)))]
        else ret tt) ;;
       if instanceofAuthenticationError error
          || instanceofExternalAPIError error then throw error
       else if instanceofError error then
         let wrappedError :=
           OtherError (str "Failed to create playlist: "
                       ++ errorMessage error) in
         logError wrappedError
           [("artistName"%string, VString artistName);
            ("year"%string, VNumber year)] ;;
         throw wrappedError
       else
         let unknownError :=
           OtherError (str "Failed to create playlist with unknown error") in
         logError unknownError
           [("artistName"%string, VString artistName);
            ("year"%string, VNumber year)] ;;
         throw unknownError).

(** ** index.ts *)

(** [!x || x.trim() === ''] for a string that may be missing. *)
Definition missingOrBlank (x : option jsstring) : bool :=
  match x with
  | None => true
  | Some s => falsy s || eqb (trim s) []
  end.

(** The string of a field that passed the test above. *)
Definition present (x : option jsstring) : jsstring :=
  match x with Some s => s | None => [] end.

Definition fieldError (message : string) (field : string) : Thrown :=
  ValidationError (str message) [("field"%string, VString (str field))].

(** [trackResults.filter(r => r.found && r.trackUri !== null)
      .map(r => r.trackUri as string)] *)
Definition collectUris (trackResults : list TrackSearchResult)
  : list jsstring :=
  map (fun result => present (trackUri result))
    (filter
       (fun result =>
          found result &&
          match trackUri result with Some _ => true | None => false end)
       trackResults).

Definition handleCreatePlaylist (request : CreatePlaylistRequest)
  : M PlaylistCreationResult :=
  if missingOrBlank (accessToken request) then
    throw (fieldError "Access token is required" "accessToken")
  else if missingOrBlank (artistId request) then
    throw (fieldError "Artist ID is required" "artistId")
  else if missingOrBlank (artistName request) then
    throw (fieldError "Artist name is required" "artistName")
  else
    let artistId := present (artistId request) in
    let artistName := present (artistName request) in
    let year := req_year request in
    let accessToken := present (accessToken request) in
    tryCatch
      (let setlistParams :=
         {| asp_artistId := artistId; asp_year := year |} in
       apiKey <- envApiKey ;;
       match apiKey with
       | None =>
           throw (fieldError "setlist.fm API key is not configured"
                    "SETLISTFM_API_KEY")
       | Some apiKey =>
           if falsy apiKey then
             throw (fieldError "setlist.fm API key is not configured"
                      "SETLISTFM_API_KEY")
           else
             songs <- getAverageSetlist setlistParams apiKey ;;
             trackResults <- matchAllTracks songs artistName accessToken ;;
             let trackUris := collectUris trackResults in
             actualYear <- match year with
                           | Some y => ret y
                           | None => currentYear
                           end ;;
             playlistResult <-
               createPlaylist
                 {| pcp_artistName := artistName; pcp_year := actualYear;
                    pcp_trackUris := trackUris;
                    pcp_accessToken := accessToken |} ;;
             ret playlistResult
       end)
      (fun error =>
         if instanceofError error then throw error
         else throw (OtherError (str "An unexpected error occurred"))).

(** ** Concrete worlds, for the examples *)

Module Examples.

Definition fmSong (n : string) : FmSong := {| fm_name := str n |}.

(** A performance of one set. *)
Definition performance (names : list string) : FmSetlist :=
  {| sets := Some {| set := Some [ {| song := Some (map fmSong names) |} ] |}
  |}.

Definition performances (l : list (list string)) : SetlistFmResponse :=
  {| setlist := Some (map performance l) |}.

Definition track (u : string) : SpotifyTrack :=
  {| uri := str u; track_name := []; artists := [] |}.

Definition hits (l : list string) : Outcome SpotifySearchResponse :=
  Resolved {| tracks := {| items := map track l |} |}.

(** A world whose services answer by the request alone. *)
Definition services
    (setlists : Z -> Outcome SetlistFmResponse)
    (search : jsstring -> Outcome SpotifySearchResponse)
    (me : Outcome SpotifyUserResponse)
    (create : Outcome SpotifyPlaylistResponse)
    (add : Outcome unit)
    (now : Z) (key : option jsstring) : World :=
  {| http := fun _ c =>
       match c return Outcome (Reply c) with
       | GetSetlists _ y _ => setlists y
       | GetSearch _ q _ _ _ => search q
       | GetMe _ _ => me
       | PostPlaylist _ _ _ _ _ => create
       | PostTracks _ _ _ => add
       end;
     getFullYear := fun _ => now;
     SETLISTFM_API_KEY := key |}.

Definition me : Outcome SpotifyUserResponse :=
  Resolved {| user_id := str "u1"; display_name := str "User" |}.

Definition created : Outcome SpotifyPlaylistResponse :=
  Resolved {| playlist_id := str "p1"; playlist_name := [];
              playlist_public := false |}.

Definition unauthorized {A : Type} : Outcome A :=
  Rejected (AxiosError (str "Request failed with status code 401")
              (Some 401)).

Definition serverError {A : Type} : Outcome A :=
  Rejected (AxiosError (str "Request failed with status code 500")
              (Some 500)).

(** Three performances in 2024: [A,B,A], [A,C] and [B]. *)
Definition threeShows (y : Z) : Outcome SetlistFmResponse :=
  if y =? 2024
  then Resolved (performances
                   [["A"; "B"; "A"]; ["A"; "C"]; ["B"]]%string)
  else Resolved (performances []).

(** Nothing in 2024, one song in 2023. *)
Definition lastYearOnly (y : Z) : Outcome SetlistFmResponse :=
  if y =? 2023 then Resolved (performances [["X"]]%string)
  else Resolved (performances []).

Definition neverPlayed (y : Z) : Outcome SetlistFmResponse :=
  Resolved (performances []).

(** The catalog knows every song but B. *)
Definition allButB (q : jsstring) : Outcome SpotifySearchResponse :=
  if eqb q (searchQuery (str "B") (str "Band")) then hits []
  else hits ["spotify:track:1"%string].

(** The credential is refused when B is looked up. *)
Definition expiresAtB (q : jsstring) : Outcome SpotifySearchResponse :=
  if eqb q (searchQuery (str "B") (str "Band")) then unauthorized
  else hits ["spotify:track:1"%string].


Definition key : option jsstring := Some (str "k").

Definition request (y : option Z) : CreatePlaylistRequest :=
  {| artistId := Some (str "53926dfc"); artistName := Some (str "Band");
     req_year := y; accessToken := Some (str "token") |}.

Definition artist : jsstring := str "53926dfc".

Definition rankedSong (n : string) (p : Z) : SetlistSong :=
  {| name := str n; position := p |}.

(** Songs in 2024, a catalog without B. *)
Definition worldShows : World :=
  services threeShows allButB me created (Resolved tt) 2026 key.

(** Songs in 2023 only, asked for in 2024. *)
Definition worldLastYear : World :=
  services lastYearOnly allButB me created (Resolved tt) 2024 key.

(** No song in any year. *)
Definition worldSilent : World :=
  services neverPlayed allButB me created (Resolved tt) 2024 key.

(** The credential expires during the resolution pass. *)
Definition worldExpired : World :=
  services threeShows expiresAtB me created (Resolved tt) 2024 key.


Definition build (uris : list string) : PlaylistCreationParams :=
  {| pcp_artistName := str "Band"; pcp_year := 2024;
     pcp_trackUris := map str uris; pcp_accessToken := str "token" |}.

End Examples.

(** ** The vocabulary of the specification of the aggregator

    These definitions follow the words of the specification, not the code:
    the code is compared with them below. *)

Module AggregatorSpec.

Definition songsOf (s : FmSet) : list FmSong :=
  match song s with Some l => l | None => [] end.

Definition setsOf (sl : FmSetlist) : list FmSet :=
  match sets sl with
  | Some ss => match set ss with Some l => l | None => [] end
  | None => []
  end.

Definition setlistsOf (data : SetlistFmResponse) : list FmSetlist :=
  match setlist data with Some l => l | None => [] end.

(** Every song name played, record after record, set after set. *)
Definition played (data : SetlistFmResponse) : list jsstring :=
  flat_map (fun sl => flat_map (fun s => map fm_name (songsOf s)) (setsOf sl))
    (setlistsOf data).

(** How many times a name occurs among the songs played. *)
Definition frequency (data : SetlistFmResponse) (n : jsstring) : Z :=
  Z.of_nat (count_occ eq_dec (played data) n).

(** The number of distinct song names. *)
Definition distinctSongs (data : SetlistFmResponse) : nat :=
  List.length (nodup eq_dec (played data)).

(** Where a name is first observed. *)
Fixpoint firstSeen (n : jsstring) (l : list jsstring) : nat :=
  match l with
  | [] => 0%nat
  | x :: l' => if eq_dec x n then 0%nat else S (firstSeen n l')
  end.

(** [a] is ranked before [b]: it is more frequent, or as frequent and
    observed first. *)
Definition ranksBefore (data : SetlistFmResponse) (a b : jsstring) : Prop :=
  frequency data a > frequency data b \/
  (frequency data a = frequency data b /\
   (firstSeen a (played data) < firstSeen b (played data))%nat).

End AggregatorSpec.

Import AggregatorSpec.

(** ** Auxiliary notions of the proofs *)

(** The keys of a map, in insertion order. *)
Definition keys (m : Map) : list jsstring := map fst m.

(** The names of [l] that are not in [seen], each once, in the order of their
    first occurrence. *)
Fixpoint fresh (seen l : list jsstring) : list jsstring :=
  match l with
  | [] => []
  | x :: l' =>
      if in_dec eq_dec x seen then fresh seen l'
      else x :: fresh (seen ++ [x]) l'
  end.

(** The order a stable sort by decreasing [weight] leaves: heavier first;
    among equals, the one that came first. *)
Definition sortedOrder {A : Type} (weight : A -> Z) (before : A -> A -> Prop)
    (a b : A) : Prop :=
  weight a > weight b \/ (weight a = weight b /\ before a b).

(** The year the aggregator works for: the one asked for, or the current
    one. *)
Definition targetYearOf (w : World) (s : State) (year : option Z) : Z :=
  match year with Some y => y | None => getFullYear w (calls s) end.

(** What a run issued, and how it ended. *)
Definition issued {A : Type} (run : State * Result A) : list Call :=
  calls (fst run).

Definition result {A : Type} (run : State * Result A) : Result A := snd run.

(** The request [searchSpotifyTrack] issues for a song. *)
Definition searchCall (artistName accessToken : jsstring) (song : jsstring)
  : Call :=
  GetSearch searchUrl (searchQuery song artistName) (str "track") 1
    (bearer accessToken).

(** No lookup of [songs], issued one after the other from the history [h],
    is refused with status 401. *)
Fixpoint lookupsAuthorized (w : World) (h : list Call)
    (artistName accessToken : jsstring) (songs : list SetlistSong) : bool :=
  match songs with
  | [] => true
  | song :: rest =>
      let c := searchCall artistName accessToken (name song) in
      match http w h c with
      | Resolved _ => true
      | Rejected e => negb (isUnauthorized e)
      end
      && lookupsAuthorized w (h ++ [c]) artistName accessToken rest
  end.

(** The requests of the builder. *)
Definition isPlaylistCall (c : Call) : bool :=
  match c with
  | GetMe _ _ | PostPlaylist _ _ _ _ _ | PostTracks _ _ _ => true
  | _ => false
  end.

Definition isSetlistCall (c : Call) : bool :=
  match c with GetSetlists _ _ _ => true | _ => false end.

(** The three requests of the builder. *)
Definition meCall (accessToken : jsstring) : Call :=
  GetMe meUrl (bearer accessToken).

Definition playlistCall (userId artistName : jsstring) (year : Z)
    (accessToken : jsstring) : Call :=
  PostPlaylist (playlistsUrl userId) (playlistName artistName year) false
    (playlistDescription artistName year) (bearer accessToken).

Definition tracksCall (playlistId : jsstring) (trackUris : list jsstring)
    (accessToken : jsstring) : Call :=
  PostTracks (tracksUrl playlistId) trackUris (bearer accessToken).

(** A request that passes the validation of [handleCreatePlaylist], in a
    world where the key of the setlist service is configured. *)
Definition accepted (w : World) (request : CreatePlaylistRequest) : Prop :=
  missingOrBlank (accessToken request) = false /\
  missingOrBlank (artistId request) = false /\
  missingOrBlank (artistName request) = false /\
  exists apiKey, SETLISTFM_API_KEY w = Some apiKey /\ falsy apiKey = false.

(** The key [handleCreatePlaylist] passes on. *)
Definition configuredKey (w : World) : jsstring :=
  present (SETLISTFM_API_KEY w).

(** The last [catch] of [handleCreatePlaylist]. *)
Definition rethrown (e : Thrown) : Thrown :=
  if instanceofError e then e
  else OtherError (str "An unexpected error occurred").

(** A field of the request is missing, or blank after trimming. *)
Definition blank (x : option jsstring) : Prop :=
  match x with
  | None => True
  | Some v => trim v = []
  end.

(** ** error-handler.ts: the answer to a failure *)

Record ErrorBody : Type :=
  { eb_message : jsstring; eb_code : jsstring; eb_details : option object }.

Record ErrorResponse : Type := { error : ErrorBody }.

Definition getStatusCode (error : Thrown) : Z :=
  if instanceofAuthenticationError error then 401
  else if instanceofExternalAPIError error then 502
  else if instanceofDataNotFoundError error then 404
  else if match error with ValidationError _ _ => true | _ => false end
  then 400
  else 500.

(** [s.replace(/Error$/, '')] *)
Definition replaceErrorSuffix (s : jsstring) : jsstring :=
  let n := (List.length s - 5)%nat in
  if eqb (skipn n s) (str "Error") then firstn n s else s.

(** [String.prototype.toUpperCase] on the letters of ASCII, which the names
    of the errors are made of. *)
Definition toUpperCaseAscii (s : jsstring) : jsstring :=
  map (fun c => if ((97 <=? c) && (c <=? 122))%N then (c - 32)%N else c) s.

(** [o[k] = v] for an object with its keys in creation order. *)
Fixpoint objectSet (o : object) (k : string) (v : value) : object :=
  match o with
  | [] => [(k, v)]
  | (k', v') :: o' =>
      if String.eqb k' k then (k', v) :: o' else (k', v') :: objectSet o' k v
  end.

(** [{ ...base, ...more }] *)
Definition objectSpread (base more : object) : object :=
  fold_left (fun o kv => objectSet o (fst kv) (snd kv)) more base.

(** The [details] of the errors of this program are always given, so
    [error.details] is truthy where the code tests it. *)
Definition formatErrorResponse (e : Thrown) : ErrorResponse :=
  {| error :=
       {| eb_message := errorMessage e;
          eb_code := toUpperCaseAscii (replaceErrorSuffix (errorName e));
          eb_details :=
            match e with
            | AuthenticationError _ details => Some details
            | ExternalAPIError _ serviceName details =>
                Some (objectSpread
                        [("serviceName"%string, VString serviceName)] details)
            | DataNotFoundError _ details => Some details
            | ValidationError _ details => Some details
            | _ => None
            end |} |}.

Definition handleError (e : Thrown) (ctx : object) : M (Z * ErrorResponse) :=
  logError e ctx ;;
  let statusCode := getStatusCode e in
  let body := formatErrorResponse e in
  ret (statusCode, body).

(** ** env-validator.ts *)

(** [process.env] *)
Definition ProcessEnv : Type := string -> option jsstring.

Record EnvironmentConfig : Type :=
  { env_SPOTIFY_CLIENT_ID : jsstring;
    env_SPOTIFY_CLIENT_SECRET : jsstring;
    env_SPOTIFY_REDIRECT_URI : jsstring;
    env_SETLISTFM_API_KEY : jsstring }.

Definition requiredVars : list string :=
  ["SPOTIFY_CLIENT_ID"; "SPOTIFY_CLIENT_SECRET"; "SPOTIFY_REDIRECT_URI";
   "SETLISTFM_API_KEY"]%string.

(** [Array.prototype.join] *)
Fixpoint join (separator : jsstring) (l : list jsstring) : jsstring :=
  match l with
  | [] => []
  | [x] => x
  | x :: l' => x ++ separator ++ join separator l'
  end.

Definition missingVarsMessage (missingVars : list string) : jsstring :=
  str "Missing required environment variables: "
  ++ join (str ", ") (map str missingVars) ++ [10%N]
  ++ str "Please ensure all required variables are set in your .env file or environment."
  ++ [10%N] ++ str "See .env.example for reference.".

Definition validateEnvironment (env : ProcessEnv) : Result EnvironmentConfig :=
  let missingVars :=
    filter (fun varName => missingOrBlank (env varName)) requiredVars in
  if (0 <? List.length missingVars)%nat then
    Throw (OtherError (missingVarsMessage missingVars))
  else
    Ok {| env_SPOTIFY_CLIENT_ID := present (env "SPOTIFY_CLIENT_ID"%string);
          env_SPOTIFY_CLIENT_SECRET :=
            present (env "SPOTIFY_CLIENT_SECRET"%string);
          env_SPOTIFY_REDIRECT_URI :=
            present (env "SPOTIFY_REDIRECT_URI"%string);
          env_SETLISTFM_API_KEY :=
            present (env "SETLISTFM_API_KEY"%string) |}.

(** ** netlify/functions/create-playlist.ts: the request of the handler *)

(** What the handler reads of the event. *)
Record HandlerEvent : Type :=
  { queryStringParameters : option (string -> option jsstring);
    headers : option (string -> option jsstring) }.

(** [event.queryStringParameters?.k] *)
Definition queryParam (event : HandlerEvent) (k : string) : option jsstring :=
  match queryStringParameters event with Some q => q k | None => None end.

(** [event.headers?.k] *)
Definition headerOf (event : HandlerEvent) (k : string) : option jsstring :=
  match headers event with Some h => h k | None => None end.

(** A string that may be missing, as a condition: [undefined] and [''] are
    falsy. *)
Definition truthy (x : option jsstring) : bool :=
  match x with Some (_ :: _) => true | _ => false end.

(** [a || b] *)
Definition orElse (a b : option jsstring) : option jsstring :=
  if truthy a then a else b.

(** The digit a code unit stands for. *)
Definition digitOf (c : N) : option Z :=
  if ((48 <=? c) && (c <=? 57))%N then Some (Z.of_N c - 48) else None.

(** The longest prefix of digits. *)
Fixpoint leadingDigits (s : jsstring) : list Z :=
  match s with
  | [] => []
  | c :: s' =>
      match digitOf c with
      | Some d => d :: leadingDigits s'
      | None => []
      end
  end.

Definition decimalValue (ds : list Z) : Z :=
  fold_left (fun acc d => 10 * acc + d) ds 0.

(** [parseInt(s, 10)], [None] standing for [NaN]: white space is skipped, a
    sign is read, then digits as far as they go; the number is the double
    nearest to the integer they write.  (A numeral beyond the largest
    double, of more than 308 digits, is read as [Infinity] by the language
    and is beyond this model; the language also lets an implementation
    replace the digits after the twentieth by zeros, and the model reads
    them all.) *)
Definition parseInt10 (s : jsstring) : option Z :=
  let S := trimStart s in
  let sign := match S with 45%N :: _ => -1 | _ => 1 end in
  let S := match S with
           | 45%N :: r => r
           | 43%N :: r => r
           | _ => S
           end in
  match leadingDigits S with
  | [] => None
  | ds => Some (roundDouble (sign * decimalValue ds))
  end.

(** LineTerminator of ECMAScript, which [.] does not match. *)
Definition isLineTerminator (c : N) : bool :=
  ((c =? 10) || (c =? 13) || (c =? 8232) || (c =? 8233))%N.

(** A letter of the pattern under the flag [i]: the code unit is the capital
    or the small letter. *)
Definition sameLetter (capital c : N) : bool :=
  ((c =? capital) || (c =? capital + 32))%N.

(** [(.+)$]: what is left, if it is not empty and holds no line
    terminator. *)
Definition restOfLine (s : jsstring) : option jsstring :=
  match s with
  | [] => None
  | _ :: _ => if forallb (fun c => negb (isLineTerminator c)) s
              then Some s else None
  end.

(** [\s+(.+)$]: white space as far as it goes, giving back what the rest
    needs. *)
Fixpoint spacesThenRest (s : jsstring) : option jsstring :=
  match s with
  | [] => None
  | c :: s' =>
      if isWhiteSpace c then
        match spacesThenRest s' with
        | Some token => Some token
        | None => restOfLine s'
        end
      else None
  end.

(** [authHeader.match(/^Bearer\s+(.+)$/i)], giving [match[1]]. *)
Definition matchBearer (authHeader : jsstring) : option jsstring :=
  match authHeader with
  | b :: e :: a :: r :: e' :: r' :: s =>
      if sameLetter 66 b && sameLetter 69 e && sameLetter 65 a
         && sameLetter 82 r && sameLetter 69 e' && sameLetter 82 r'
      then spacesThenRest s
      else None
  | _ => None
  end.

(** The [try] block of the handler from the reading of the query parameters
    to the request object: what it passes to [handleCreatePlaylist], or what
    it throws before. *)
Definition handlerRequest (event : HandlerEvent)
  : Result CreatePlaylistRequest :=
  let artistId := queryParam event "artistId" in
  let artistName := queryParam event "artistName" in
  let yearParam := queryParam event "year" in
  if negb (truthy artistId) then
    Throw (fieldError "artistId query parameter is required" "artistId")
  else if negb (truthy artistName) then
    Throw (fieldError "artistName query parameter is required" "artistName")
  else
    let year := if truthy yearParam then parseInt10 (present yearParam)
                else None in
    if truthy yearParam
       && match year with None => true | Some _ => false end then
      Throw (ValidationError (str "year parameter must be a valid number")
               [("field"%string, VString (str "year"));
                ("value"%string, VString (present yearParam))])
    else
      let authHeader :=
        orElse (headerOf event "authorization")
          (headerOf event "Authorization") in
      let accessToken :=
        if truthy authHeader then matchBearer (present authHeader)
        else None in
      let accessToken :=
        if negb (truthy accessToken) then queryParam event "access_token"
        else accessToken in
      if negb (truthy accessToken) then
        Throw (fieldError
                 "Access token is required (provide via Authorization header or access_token query parameter)"
                 "access_token")
      else
        Ok {| artistId := artistId; artistName := artistName;
              req_year := year; accessToken := accessToken |}.

(** ** More notions of the proofs *)

Definition isSearchCall (c : Call) : bool :=
  match c with GetSearch _ _ _ _ _ => true | _ => false end.

(** The request of a build that is rejected, with its reason [e]: the
    identity request, or the creation request after it, or the population
    request after both. *)
Definition builderRejects (p : PlaylistCreationParams) (w : World)
    (s : State) (e : Thrown) : Prop :=
  let token := pcp_accessToken p in
  let c1 := meCall token in
  http w (calls s) c1 = Rejected e \/
  exists user,
    let c2 := playlistCall (user_id user) (pcp_artistName p) (pcp_year p)
                token in
    http w (calls s) c1 = Resolved user /\
    (http w (calls s ++ [c1]) c2 = Rejected e \/
     exists pl,
       http w (calls s ++ [c1]) c2 = Resolved pl /\
       pcp_trackUris p <> [] /\
       http w (calls s ++ [c1; c2])
         (tracksCall (playlist_id pl) (pcp_trackUris p) token) = Rejected e).

(** [l] is made of elements of [l'], in the order they have there, none
    taken more often than it occurs there. *)
Inductive subsequence {A : Type} : list A -> list A -> Prop :=
| subsequence_nil : subsequence [] []
| subsequence_skip x l l' : subsequence l l' -> subsequence l (x :: l')
| subsequence_keep x l l' :
    subsequence l l' -> subsequence (x :: l) (x :: l').

(** The digits of a decimal numeral, most significant first. *)
Fixpoint uintDigits (d : Decimal.uint) : list Z :=
  match d with
  | Decimal.Nil => []
  | Decimal.D0 l => 0 :: uintDigits l
  | Decimal.D1 l => 1 :: uintDigits l
  | Decimal.D2 l => 2 :: uintDigits l
  | Decimal.D3 l => 3 :: uintDigits l
  | Decimal.D4 l => 4 :: uintDigits l
  | Decimal.D5 l => 5 :: uintDigits l
  | Decimal.D6 l => 6 :: uintDigits l
  | Decimal.D7 l => 7 :: uintDigits l
  | Decimal.D8 l => 8 :: uintDigits l
  | Decimal.D9 l => 9 :: uintDigits l
  end.

(** A string that begins with no digit. *)
Definition noDigitAhead (s : jsstring) : Prop := leadingDigits s = [].

(** A token that a [Bearer] header carries back unchanged: it is not empty,
    does not begin with white space and holds no line terminator. *)
Definition plainToken (token : jsstring) : Prop :=
  match token with
  | [] => False
  | c :: _ =>
      isWhiteSpace c = false /\
      forallb (fun c => negb (isLineTerminator c)) token = true
  end.

(** ** More concrete worlds and events *)

Module Cases.

Import Examples.

(** The setlist service is down. *)
Definition worldOffline : World :=
  services (fun _ => serverError) allButB me created (Resolved tt) 2024 key.

(** Nothing in 2024, and the service is down when 2023 is asked for. *)
Definition downLastYear (y : Z) : Outcome SetlistFmResponse :=
  if y =? 2024 then Resolved (performances []) else serverError.

Definition worldFallbackDown : World :=
  services downLastYear allButB me created (Resolved tt) 2024 key.

(** The credential is refused by the identity request. *)
Definition worldLocked : World :=
  services threeShows allButB unauthorized created (Resolved tt) 2024 key.

(** The key of the setlist service is not configured. *)
Definition worldNoKey : World :=
  services threeShows allButB me created (Resolved tt) 2024 None.

(** An environment with its four variables, the key being the one of the
    worlds above. *)
Definition fullEnv : ProcessEnv :=
  fun v => if String.eqb v "SETLISTFM_API_KEY" then key
           else Some (str "configured").

(** An environment where the secret is blank and the key is not set. *)
Definition partialEnv : ProcessEnv :=
  fun v => if String.eqb v "SETLISTFM_API_KEY" then None
           else if String.eqb v "SPOTIFY_CLIENT_SECRET" then Some (str "  ")
           else Some (str "configured").

Fixpoint lookup (l : list (string * string)) (k : string)
  : option jsstring :=
  match l with
  | [] => None
  | (k', v) :: l' => if String.eqb k' k then Some (str v) else lookup l' k
  end.

Definition eventOf (query headers : list (string * string)) : HandlerEvent :=
  {| queryStringParameters := Some (lookup query);
     headers := Some (lookup headers) |}.

(** The same songs, in one set or in three records, one of them without
    sets. *)
Definition oneSet : SetlistFmResponse := performances [["A"; "B"; "A"]]%string.

Definition threeRecords : SetlistFmResponse :=
  {| setlist := Some [performance ["A"]%string; {| sets := None |};
                      performance ["B"; "A"]%string] |}.

End Cases.

(** * Properties *)

(** ** Numbers *)

(** Up to 2^53 an integer is a double. *)
Lemma roundDouble_exact z : Z.abs z <= 2 ^ 53 -> roundDouble z = z.
Proof.
  intros Hz. unfold roundDouble. cbv zeta.
  destruct (Z.eq_dec (Z.abs z) (2 ^ 53)) as [He|Hne].
  - assert (Hz' : z = 2 ^ 53 \/ z = - 2 ^ 53) by lia.
    destruct Hz' as [-> | ->]; reflexivity.
  - assert (Hlog : Z.log2 (Z.abs z) - 52 <= 0).
    { destruct (Z.eq_dec (Z.abs z) 0) as [H0|H0]; [now rewrite H0|].
      assert (Hlt : Z.abs z < 2 ^ 53) by lia.
      apply Z.log2_lt_pow2 in Hlt; lia. }
    apply Z.leb_le in Hlog. now rewrite Hlog.
Qed.

(** The year before a safe year is the integer before it. *)
Lemma subtract_safe t : safeInteger t -> subtract t 1 = t - 1.
Proof.
  unfold safeInteger, subtract. intros Ht. apply roundDouble_exact. lia.
Qed.

(** The text of an integer up to 2^53 is its decimal numeral. *)
Lemma numberToString_decimal n :
  Z.abs n <= 2 ^ 53 -> numberToString n = decimal n.
Proof.
  intros Hn. unfold numberToString. cbv zeta.
  rewrite (roundDouble_exact n Hn).
  destruct (Z.abs n <? 2 ^ 53) eqn:E; [reflexivity|].
  apply Z.ltb_ge in E.
  assert (Hn' : n = 2 ^ 53 \/ n = - 2 ^ 53) by lia.
  destruct Hn' as [-> | ->]; vm_compute; reflexivity.
Qed.

(** ** Lists *)

Lemma StronglySorted_weaken {A : Type} (R R' : A -> A -> Prop) (l : list A) :
  (forall a b, In a l -> In b l -> R a b -> R' a b) ->
  StronglySorted R l -> StronglySorted R' l.
Proof.
  intros Himp Hs. induction Hs as [|a l Hs IH Hall]; constructor.
  - apply IH. intros x y Hx Hy. apply Himp; now right.
  - rewrite Forall_forall in *. intros b Hb.
    apply Himp; [now left | now right | now apply Hall].
Qed.

Lemma StronglySorted_map {A B : Type} (f : A -> B) (R : B -> B -> Prop)
    (l : list A) :
  StronglySorted (fun a b => R (f a) (f b)) l -> StronglySorted R (map f l).
Proof.
  induction 1 as [|a l Hs IH Hall]; simpl; constructor; auto.
  rewrite Forall_forall in *. intros b Hb.
  apply in_map_iff in Hb as (x & <- & Hx). now apply Hall.
Qed.

(** ** [Array.prototype.sort] is a stable sort *)

Section StableSort.

Variable A : Type.
Variable weight : A -> Z.
(** The order of the elements before the sort. *)
Variable before : A -> A -> Prop.

Let compare (a b : A) : Z := weight b - weight a.

Lemma sortInsert_Permutation (cmp : A -> A -> Z) x l :
  Permutation (sortInsert cmp x l) (x :: l).
Proof.
  induction l as [|y l IH]; simpl; [reflexivity|].
  destruct (cmp x y <=? 0); [reflexivity|].
  rewrite IH. apply perm_swap.
Qed.

Lemma sort_Permutation (cmp : A -> A -> Z) l : Permutation (sort cmp l) l.
Proof.
  induction l as [|x l IH]; simpl; [reflexivity|].
  rewrite sortInsert_Permutation. now constructor.
Qed.

Lemma sortInsert_sorted x l :
  StronglySorted (sortedOrder weight before) l -> Forall (before x) l ->
  StronglySorted (sortedOrder weight before) (sortInsert compare x l).
Proof.
  induction 1 as [|y l Hs IH Hall]; intros Hx; simpl.
  - repeat constructor.
  - inversion Hx as [|? ? Hxy Hxl]; subst.
    unfold compare at 1. destruct (weight y - weight x <=? 0) eqn:E.
    + apply Z.leb_le in E. constructor; [now constructor|].
      constructor.
      * unfold sortedOrder. destruct (Z.eq_dec (weight x) (weight y));
          [right; now split | left; lia].
      * rewrite Forall_forall in *. intros z Hz.
        specialize (Hall z Hz). specialize (Hxl z Hz).
        unfold sortedOrder in *.
        destruct (Z.eq_dec (weight x) (weight z));
          [right; now split | left; lia].
    + apply Z.leb_gt in E. constructor; [now apply IH|].
      rewrite Forall_forall in *. intros z Hz.
      apply (Permutation_in _ (sortInsert_Permutation compare x l)) in Hz.
      destruct Hz as [<-|Hz]; [left; lia | now apply Hall].
Qed.

Lemma sort_sorted l :
  StronglySorted before l ->
  StronglySorted (sortedOrder weight before) (sort compare l).
Proof.
  induction 1 as [|x l Hs IH Hall]; simpl; [constructor|].
  apply sortInsert_sorted; [exact IH|].
  eapply Permutation_Forall; [|exact Hall].
  symmetry. apply sort_Permutation.
Qed.

End StableSort.

(** ** The frequency map *)

Lemma orZero_Some v : orZero (Some v) = v.
Proof. unfold orZero. destruct (Z.eqb_spec v 0); congruence. Qed.

Lemma mapGet_mapSet m k v k' :
  mapGet (mapSet m k v) k' = if eq_dec k k' then Some v else mapGet m k'.
Proof.
  induction m as [|[k0 v0] m IH]; simpl.
  - destruct (eq_dec k k'); reflexivity.
  - destruct (eq_dec k0 k) as [->|Hne]; simpl.
    + destruct (eq_dec k k'); reflexivity.
    + destruct (eq_dec k0 k') as [->|Hne'].
      * destruct (eq_dec k k'); [congruence | reflexivity].
      * exact IH.
Qed.

Lemma keys_mapSet m k v :
  keys (mapSet m k v) =
  if in_dec eq_dec k (keys m) then keys m else keys m ++ [k].
Proof.
  induction m as [|[k0 v0] m IH]; simpl; [reflexivity|].
  destruct (eq_dec k0 k) as [->|Hne]; simpl.
  - destruct (eq_dec k k); [reflexivity | congruence].
  - destruct (eq_dec k0 k) as [?|_]; [congruence|].
    rewrite IH. unfold keys.
    destruct (in_dec eq_dec k (map fst m)); reflexivity.
Qed.

Lemma mapGet_In m k v : NoDup (keys m) -> In (k, v) m -> mapGet m k = Some v.
Proof.
  induction m as [|[k0 v0] m IH]; simpl; intros Hnd Hin; [contradiction|].
  inversion Hnd as [|? ? Hnotin Hnd']; subst.
  destruct Hin as [Heq|Hin].
  - inversion Heq; subst. destruct (eq_dec k k); congruence.
  - destruct (eq_dec k0 k) as [->|Hne]; [|now apply IH].
    exfalso. apply Hnotin. unfold keys. apply in_map_iff.
    now exists (k, v).
Qed.

(** The three nested loops visit the songs played, in order. *)
Lemma countSongs_played data :
  countSongs data =
  fold_left (fun m n => mapSet m n (orZero (mapGet m n) + 1)) (played data) [].
Proof.
  set (bump := fun (m : Map) n => mapSet m n (orZero (mapGet m n) + 1)).
  assert (Hsong : forall l m,
             fold_left countSong l m = fold_left bump (map fm_name l) m).
  { induction l as [|x l IH]; intros m; simpl; [reflexivity | apply IH]. }
  assert (Hset : forall l m,
             fold_left countSet l m =
             fold_left bump (flat_map (fun s => map fm_name (songsOf s)) l) m).
  { induction l as [|x l IH]; intros m; simpl; [reflexivity|].
    rewrite fold_left_app, <- IH. f_equal.
    unfold countSet, songsOf. destruct (song x); [apply Hsong | reflexivity]. }
  unfold countSongs, played, setlistsOf.
  destruct (setlist data) as [l|]; [|reflexivity].
  generalize (@nil (jsstring * Z)).
  induction l as [|x l IH]; intros m; simpl; [reflexivity|].
  rewrite fold_left_app, <- IH. f_equal.
  unfold countSetlist, setsOf.
  destruct (sets x) as [ss|]; [|reflexivity].
  destruct (set ss); [apply Hset | reflexivity].
Qed.

Section Tally.

Let bump (m : Map) (n : jsstring) : Map :=
  mapSet m n (orZero (mapGet m n) + 1).

Lemma tally_get l : forall m k,
  orZero (mapGet (fold_left bump l m) k) =
  orZero (mapGet m k) + Z.of_nat (count_occ eq_dec l k).
Proof.
  induction l as [|x l IH]; intros m k; simpl; [lia|].
  rewrite IH. unfold bump. rewrite mapGet_mapSet.
  destruct (eq_dec x k) as [->|Hne]; [rewrite orZero_Some|]; lia.
Qed.

Lemma tally_keys l : forall m,
  keys (fold_left bump l m) = keys m ++ fresh (keys m) l.
Proof.
  induction l as [|x l IH]; intros m; simpl; [now rewrite app_nil_r|].
  rewrite IH. unfold bump. rewrite keys_mapSet.
  destruct (in_dec eq_dec x (keys m)); [reflexivity|].
  now rewrite <- app_assoc.
Qed.

End Tally.

Lemma fresh_In l : forall seen a,
  In a (fresh seen l) <-> In a l /\ ~ In a seen.
Proof.
  induction l as [|x l IH]; intros seen a; simpl; [tauto|].
  destruct (in_dec eq_dec x seen) as [Hin|Hnin].
  - rewrite IH. split; [tauto|]. intros [[<-|H] Hn]; tauto.
  - simpl. rewrite IH, in_app_iff. simpl.
    destruct (eq_dec x a) as [<-|Hne]; [tauto|]. tauto.
Qed.

Lemma fresh_NoDup l : forall seen, NoDup (fresh seen l).
Proof.
  induction l as [|x l IH]; intros seen; simpl; [constructor|].
  destruct (in_dec eq_dec x seen); [apply IH|].
  constructor; [|apply IH].
  rewrite fresh_In, in_app_iff. simpl. tauto.
Qed.

Lemma fresh_firstSeen l : forall seen,
  StronglySorted (fun a b => (firstSeen a l < firstSeen b l)%nat)
    (fresh seen l).
Proof.
  induction l as [|x l IH]; intros seen; simpl; [constructor|].
  destruct (in_dec eq_dec x seen) as [Hin|Hnin].
  - eapply StronglySorted_weaken; [|apply IH].
    intros a b Ha Hb Hlt. cbv beta in Hlt. apply fresh_In in Ha, Hb.
    destruct (eq_dec x a) as [->|_]; [tauto|].
    destruct (eq_dec x b) as [->|_]; [tauto|]. lia.
  - constructor.
    + eapply StronglySorted_weaken; [|apply IH].
      intros a b Ha Hb Hlt. cbv beta in Hlt. apply fresh_In in Ha, Hb.
      rewrite in_app_iff in Ha, Hb. simpl in Ha, Hb.
      destruct (eq_dec x a) as [->|_]; [tauto|].
      destruct (eq_dec x b) as [->|_]; [tauto|]. lia.
    + rewrite Forall_forall. intros b Hb. apply fresh_In in Hb.
      rewrite in_app_iff in Hb. simpl in Hb.
      destruct (eq_dec x x) as [_|]; [|congruence].
      destruct (eq_dec x b) as [->|_]; [tauto | lia].
Qed.

(** ** [Array.prototype.map] with the index *)

Lemma mapIndexFrom_name (f : jsstring * Z -> nat -> SetlistSong) l :
  (forall e i, name (f e i) = fst e) ->
  forall i, map name (mapIndexFrom f i l) = map fst l.
Proof.
  intros Hf. induction l as [|x l IH]; intros i; simpl; [reflexivity|].
  now rewrite Hf, IH.
Qed.

Lemma mapIndexFrom_position (f : jsstring * Z -> nat -> SetlistSong) l :
  (forall e i, position (f e i) = Z.of_nat i + 1) ->
  forall i,
    map position (mapIndexFrom f i l) =
    map Z.of_nat (seq (S i) (List.length l)).
Proof.
  intros Hf. induction l as [|x l IH]; intros i; simpl; [reflexivity|].
  rewrite Hf, IH. f_equal. lia.
Qed.

Lemma StronglySorted_map_inv {A B : Type} (f : A -> B) (R : B -> B -> Prop)
    (l : list A) :
  StronglySorted R (map f l) -> StronglySorted (fun a b => R (f a) (f b)) l.
Proof.
  induction l as [|a l IH]; simpl; intros H; [constructor|].
  inversion H as [|? ? Hs Hall]; subst. constructor; [now apply IH|].
  rewrite Forall_forall in *. intros b Hb. apply Hall. now apply in_map.
Qed.

(** ** The aggregator *)

Lemma countSongs_keys data : keys (countSongs data) = fresh [] (played data).
Proof. rewrite countSongs_played. now rewrite tally_keys. Qed.

Lemma countSongs_frequency data n :
  orZero (mapGet (countSongs data) n) = frequency data n.
Proof. rewrite countSongs_played. now rewrite tally_get. Qed.

Lemma countSongs_entry data k v :
  In (k, v) (countSongs data) -> v = frequency data k.
Proof.
  intros Hin. rewrite <- countSongs_frequency.
  rewrite (mapGet_In _ k v); [now rewrite orZero_Some | | exact Hin].
  rewrite countSongs_keys. apply fresh_NoDup.
Qed.

Lemma sortedSongs_names m :
  Permutation (map name (sortedSongs m)) (keys m).
Proof.
  unfold sortedSongs, mapIndex. rewrite mapIndexFrom_name by reflexivity.
  apply Permutation_map, sort_Permutation.
Qed.

(** What [fetchSetlistForYear] computes from the records it received. *)
Lemma sortedSongs_ranked data :
  let songs := sortedSongs (countSongs data) in
  (forall n, In n (map name songs) <-> In n (played data)) /\
  NoDup (map name songs) /\
  StronglySorted (ranksBefore data) (map name songs) /\
  map position songs = map Z.of_nat (seq 1 (distinctSongs data)).
Proof.
  intros songs. subst songs.
  pose proof (sortedSongs_names (countSongs data)) as Hperm.
  rewrite countSongs_keys in Hperm.
  assert (Hin : forall n, In n (fresh [] (played data)) <-> In n (played data)).
  { intros n. rewrite fresh_In. simpl. tauto. }
  split; [|split; [|split]].
  - intros n. rewrite <- Hin. split; apply Permutation_in;
      [exact Hperm | now symmetry].
  - eapply Permutation_NoDup; [symmetry; exact Hperm | apply fresh_NoDup].
  - unfold sortedSongs, mapIndex. rewrite mapIndexFrom_name by reflexivity.
    apply StronglySorted_map.
    eapply StronglySorted_weaken;
      [|apply (sort_sorted _ snd
                 (fun a b => (firstSeen (fst a) (played data)
                              < firstSeen (fst b) (played data))%nat))].
    + intros [ka va] [kb vb] Ha Hb Hord.
      apply (Permutation_in _ (sort_Permutation _ _ _)) in Ha, Hb.
      apply countSongs_entry in Ha, Hb. subst va vb.
      exact Hord.
    + apply (StronglySorted_map_inv fst
                 (fun a b => (firstSeen a (played data)
                              < firstSeen b (played data))%nat)).
      change (map fst (countSongs data)) with (keys (countSongs data)).
      rewrite countSongs_keys. apply fresh_firstSeen.
  - unfold sortedSongs, mapIndex.
    rewrite mapIndexFrom_position by reflexivity.
    do 2 f_equal.
    rewrite (Permutation_length (sort_Permutation _ _ _)).
    rewrite <- (length_map fst).
    change (map fst (countSongs data)) with (keys (countSongs data)).
    rewrite countSongs_keys. unfold distinctSongs.
    apply Permutation_length, NoDup_Permutation.
    + apply fresh_NoDup.
    + apply NoDup_nodup.
    + intros n. now rewrite Hin, nodup_In.
Qed.

Lemma fetchSetlistForYear_resolved w s artistId year apiKey data :
  http w (calls s) (GetSetlists (setlistsUrl artistId) year apiKey)
  = Resolved data ->
  fetchSetlistForYear artistId year apiKey w s =
  ({| calls := calls s ++ [GetSetlists (setlistsUrl artistId) year apiKey];
      console := console s |},
   Ok (sortedSongs (countSongs data))).
Proof.
  intros H. unfold fetchSetlistForYear, tryCatch, bind, axios.
  cbv zeta. now rewrite H.
Qed.

(** C1: whatever records the setlist service returns for a year,
    [fetchSetlistForYear] issues that one request and returns songs such that:
    the frequency it counted for a name is the number of occurrences of the
    name among all the songs played (so a record without songs adds nothing
    and a song repeated in a performance counts each time); the names
    returned are the distinct names played, each once; they are ordered by
    decreasing frequency, names of equal frequency in the order they were
    first observed; and the positions are 1, 2, ..., N for N the number of
    distinct names. *)
Theorem fetchSetlistForYear_ranks w s artistId year apiKey
    (data : SetlistFmResponse) :
  let run := fetchSetlistForYear artistId year apiKey w s in
  http w (calls s) (GetSetlists (setlistsUrl artistId) year apiKey)
  = Resolved data ->
  exists songs,
    result run = Ok songs /\
    issued run
    = calls s ++ [GetSetlists (setlistsUrl artistId) year apiKey] /\
    (forall n, orZero (mapGet (countSongs data) n) = frequency data n) /\
    (forall n, In n (map name songs) <-> In n (played data)) /\
    NoDup (map name songs) /\
    StronglySorted (ranksBefore data) (map name songs) /\
    map position songs = map Z.of_nat (seq 1 (distinctSongs data)).
Proof.
  intros run H. subst run. exists (sortedSongs (countSongs data)).
  rewrite (fetchSetlistForYear_resolved _ _ _ _ _ _ H).
  split; [reflexivity|]. split; [reflexivity|].
  split; [apply countSongs_frequency|].
  apply sortedSongs_ranked.
Qed.

Lemma sortedSongs_length data :
  List.length (sortedSongs (countSongs data)) = distinctSongs data.
Proof.
  destruct (sortedSongs_ranked data) as (_ & _ & _ & Hpos).
  apply (f_equal (@List.length Z)) in Hpos.
  now rewrite !length_map, length_seq in Hpos.
Qed.

(** The requests of [fetchSetlistForYear]: one, however it ends. *)
Lemma fetchSetlistForYear_issued w s artistId year apiKey :
  issued (fetchSetlistForYear artistId year apiKey w s) =
  calls s ++ [GetSetlists (setlistsUrl artistId) year apiKey].
Proof.
  unfold fetchSetlistForYear, tryCatch, bind, axios, issued. cbv zeta.
  destruct (http w (calls s) _) as [data|e]; [reflexivity|].
  destruct e; reflexivity.
Qed.

Lemma resolveYear {A : Type} (year : option Z) (k : Z -> M A) w s :
  bind (match year with Some y => ret y | None => currentYear end) k w s
  = k (targetYearOf w s year) w s.
Proof. unfold bind, targetYearOf. destruct year; reflexivity. Qed.

Ltac stepAsync :=
  unfold fetchSetlistForYear, tryCatch, bind, axios, ret, throw, logError;
  cbv zeta; simpl calls.

(** The requests of [getAverageSetlist], however it ends: the fetch for the
    target year and, exactly when that one resolved without a song, the
    fetch for the year before. *)
Lemma getAverageSetlist_issued w s artistId year apiKey :
  let t := targetYearOf w s year in
  let fetch := fun y => GetSetlists (setlistsUrl artistId) y apiKey in
  issued (getAverageSetlist {| asp_artistId := artistId; asp_year := year |}
            apiKey w s) =
  calls s ++ fetch t ::
    match http w (calls s) (fetch t) with
    | Resolved first =>
        if (distinctSongs first =? 0)%nat then [fetch (subtract t 1)]
        else []
    | Rejected _ => []
    end.
Proof.
  intros t fetch.
  unfold getAverageSetlist. cbv zeta. simpl asp_artistId. simpl asp_year.
  rewrite resolveYear. fold t. unfold issued. stepAsync.
  fold (fetch t). fold (fetch (subtract t 1)).
  destruct (http w (calls s) (fetch t)) as [first|e] eqn:E.
  - rewrite <- sortedSongs_length.
    destruct (List.length (sortedSongs (countSongs first)) =? 0)%nat.
    + destruct (http w _ (fetch (subtract t 1))) as [second|e] eqn:E2.
      * destruct (List.length (sortedSongs (countSongs second)) =? 0)%nat;
          simpl; rewrite <- app_assoc; reflexivity.
      * destruct e; simpl; rewrite <- app_assoc; reflexivity.
    + reflexivity.
  - destruct e; reflexivity.
Qed.


(** ** The resolver *)

(** One lookup: the request is issued, and the answer of the catalog decides
    between a track, no track and the authentication failure. *)
Lemma searchSpotifyTrack_run w s song artistName accessToken :
  searchSpotifyTrack song artistName accessToken w s =
  ({| calls := calls s ++ [searchCall artistName accessToken song];
      console := console s |},
   match http w (calls s) (searchCall artistName accessToken song) with
   | Resolved response =>
       match items (tracks response) with
       | track :: _ =>
           Ok {| songName := song; trackUri := Some (uri track);
                 found := true |}
       | [] => Ok (notFound song)
       end
   | Rejected e =>
       if isUnauthorized e then
         Throw (AuthenticationError (str "Invalid or expired access token")
                  [("statusCode"%string, VNumber 401)])
       else Ok (notFound song)
   end).
Proof.
  unfold searchSpotifyTrack, searchCall. stepAsync.
  destruct (http w (calls s) _) as [response|e].
  - destruct (items (tracks response)); reflexivity.
  - destruct (isUnauthorized e) eqn:E; [|reflexivity].
    destruct e as [| | | |m [st|]| |]; try discriminate E.
    unfold isUnauthorized in E. simpl in E.
    apply Z.eqb_eq in E. now subst st.
Qed.

(** The array pushed to only grows at its end. *)
Lemma matchLoop_acc songs artistName accessToken : forall acc w s,
  matchLoop songs artistName accessToken acc w s =
  match matchLoop songs artistName accessToken [] w s with
  | (s', Ok results) => (s', Ok (acc ++ results))
  | (s', Throw e) => (s', Throw e)
  end.
Proof.
  induction songs as [|song rest IH]; intros acc w s; simpl.
  - unfold ret. now rewrite app_nil_r.
  - unfold bind. rewrite searchSpotifyTrack_run.
    destruct (http w (calls s) _) as [response|e].
    + destruct (items (tracks response)) as [|track ?].
      * rewrite (IH (acc ++ _)), (IH [_]).
        destruct (matchLoop rest _ _ [] _ _) as [s' [rs|e']];
          [|reflexivity].
        now rewrite <- app_assoc.
      * rewrite (IH (acc ++ _)), (IH [_]).
        destruct (matchLoop rest _ _ [] _ _) as [s' [rs|e']];
          [|reflexivity].
        now rewrite <- app_assoc.
    + destruct (isUnauthorized e); [reflexivity|].
      rewrite (IH (acc ++ _)), (IH [_]).
      destruct (matchLoop rest _ _ [] _ _) as [s' [rs|e']];
        [|reflexivity].
      now rewrite <- app_assoc.
Qed.

(** [matchAllTracks] on a song and the songs after it. *)
Lemma matchAllTracks_cons song rest artistName accessToken w s :
  matchAllTracks (song :: rest) artistName accessToken w s =
  match searchSpotifyTrack (name song) artistName accessToken w s with
  | (s1, Ok r) =>
      match matchAllTracks rest artistName accessToken w s1 with
      | (s', Ok results) => (s', Ok (r :: results))
      | (s', Throw e) => (s', Throw e)
      end
  | (s1, Throw e) => (s1, Throw e)
  end.
Proof.
  unfold matchAllTracks. simpl. unfold bind.
  destruct (searchSpotifyTrack _ _ _ w s) as [s1 [r|e]]; [|reflexivity].
  now rewrite matchLoop_acc.
Qed.

(** A result is well formed when [found] says whether there is a track. *)
Lemma searchSpotifyTrack_result w s song artistName accessToken r :
  result (searchSpotifyTrack song artistName accessToken w s) = Ok r ->
  songName r = song /\
  found r = match trackUri r with Some _ => true | None => false end.
Proof.
  rewrite searchSpotifyTrack_run. unfold result. simpl.
  destruct (http w (calls s) _) as [response|e].
  - destruct (items (tracks response)); intros [= <-]; now split.
  - destruct (isUnauthorized e); [discriminate|].
    intros [= <-]; now split.
Qed.

(** The whole pass when no lookup is refused: one result per song, in the
    order of the songs, and one request per song. *)
Lemma matchAllTracks_authorized artistName accessToken songs : forall w s,
  lookupsAuthorized w (calls s) artistName accessToken songs = true ->
  exists results,
    result (matchAllTracks songs artistName accessToken w s) = Ok results /\
    issued (matchAllTracks songs artistName accessToken w s)
    = calls s ++ map (fun x => searchCall artistName accessToken (name x))
                   songs /\
    map songName results = map name songs /\
    Forall (fun r => found r =
                     match trackUri r with Some _ => true | None => false end)
      results.
Proof.
  induction songs as [|song rest IH]; intros w s Hauth.
  - exists []. unfold matchAllTracks, issued, result. simpl.
    rewrite app_nil_r. repeat split; constructor.
  - simpl in Hauth. apply andb_true_iff in Hauth as [Hone Hrest].
    rewrite matchAllTracks_cons, searchSpotifyTrack_run.
    set (s1 := {| calls := calls s ++ [searchCall artistName accessToken
                                         (name song)];
                  console := console s |}) in *.
    destruct (IH w s1 Hrest) as (results & Hres & Hiss & Hnames & Hwf).
    unfold result, issued in Hres, Hiss |- *.
    destruct (matchAllTracks rest artistName accessToken w s1)
      as [s' [rs|e']]; simpl in Hres, Hiss; [|discriminate].
    injection Hres as ->.
    assert (Hiss' : calls s'
                    = calls s
                      ++ map (fun x => searchCall artistName accessToken
                                         (name x)) (song :: rest)).
    { rewrite Hiss. subst s1. simpl. now rewrite <- app_assoc. }
    destruct (http w (calls s) _) as [response|e].
    + destruct (items (tracks response)) as [|track ?];
        eexists; simpl; (split; [reflexivity|]); (split; [exact Hiss'|]);
        (split; [simpl; f_equal; exact Hnames | now constructor]).
    + destruct (isUnauthorized e); [discriminate|].
      eexists; simpl; (split; [reflexivity|]); (split; [exact Hiss'|]);
        (split; [simpl; f_equal; exact Hnames | now constructor]).
Qed.

(** Conversely, the pass returns only if no lookup was refused. *)
Lemma matchAllTracks_Ok artistName accessToken songs : forall w s results,
  result (matchAllTracks songs artistName accessToken w s) = Ok results ->
  lookupsAuthorized w (calls s) artistName accessToken songs = true.
Proof.
  induction songs as [|song rest IH]; intros w s results; [reflexivity|].
  rewrite matchAllTracks_cons, searchSpotifyTrack_run. simpl.
  set (s1 := {| calls := calls s ++ [searchCall artistName accessToken
                                       (name song)];
                console := console s |}).
  specialize (IH w s1). unfold result in *.
  destruct (http w (calls s) _) as [response|e].
  - assert (Hk : forall r : TrackSearchResult,
               snd (match matchAllTracks rest artistName accessToken w s1 with
                    | (s', Ok rs) => (s', Ok (r :: rs))
                    | (s', Throw e) => (s', Throw e)
                    end) = Ok results ->
               lookupsAuthorized w (calls s1) artistName accessToken rest
               = true).
    { intros r. destruct (matchAllTracks rest _ _ w s1) as [s' [rs|e']];
        simpl; [intros _; now apply (IH rs) | discriminate]. }
    destruct (items (tracks response)); apply Hk.
  - destruct (isUnauthorized e); simpl; [discriminate|].
    destruct (matchAllTracks rest _ _ w s1) as [s' [rs|e']];
      simpl; [intros _; now apply (IH rs) | discriminate].
Qed.

(** The pass stops at the first lookup that is refused. *)
Lemma matchAllTracks_unauthorized artistName accessToken song post e pre :
  forall w s,
  lookupsAuthorized w (calls s) artistName accessToken pre = true ->
  http w (calls s ++ map (fun x => searchCall artistName accessToken (name x))
                       pre)
    (searchCall artistName accessToken (name song)) = Rejected e ->
  isUnauthorized e = true ->
  matchAllTracks (pre ++ song :: post) artistName accessToken w s =
  ({| calls := calls s
               ++ map (fun x => searchCall artistName accessToken (name x))
                    (pre ++ [song]);
      console := console s |},
   Throw (AuthenticationError (str "Invalid or expired access token")
            [("statusCode"%string, VNumber 401)])).
Proof.
  induction pre as [|x pre IH]; intros w s Hauth Hrej Hun.
  - simpl in Hrej |- *. rewrite app_nil_r in Hrej.
    rewrite matchAllTracks_cons, searchSpotifyTrack_run, Hrej, Hun.
    reflexivity.
  - simpl in Hauth. apply andb_true_iff in Hauth as [Hone Hrest].
    simpl app. rewrite matchAllTracks_cons, searchSpotifyTrack_run.
    set (s1 := {| calls := calls s ++ [searchCall artistName accessToken
                                         (name x)];
                  console := console s |}).
    assert (Hrej' : http w (calls s1
                            ++ map (fun x => searchCall artistName accessToken
                                               (name x)) pre)
                      (searchCall artistName accessToken (name song))
                    = Rejected e).
    { subst s1. simpl calls. rewrite <- app_assoc. exact Hrej. }
    specialize (IH w s1 Hrest Hrej' Hun).
    assert (Hs : {| calls := calls s1
                             ++ map (fun x => searchCall artistName
                                                accessToken (name x))
                                  (pre ++ [song]);
                    console := console s1 |}
                 = {| calls := calls s
                               ++ map (fun x => searchCall artistName
                                                  accessToken (name x))
                                    ((x :: pre) ++ [song]);
                      console := console s |}).
    { subst s1. simpl. now rewrite <- app_assoc. }
    destruct (http w (calls s) _) as [response|e0].
    + destruct (items (tracks response)); rewrite IH, Hs; reflexivity.
    + destruct (isUnauthorized e0); [discriminate|].
      rewrite IH, Hs; reflexivity.
Qed.


(** C3: when no lookup is refused with status 401, [matchAllTracks] returns
    exactly one result per song, in the order of the songs (the i-th result
    carries the name of the i-th song), after one lookup per song in that
    order, and a result that is not found has no track. *)
Theorem matchAllTracks_one_result_per_song w s songs artistName accessToken :
  let run := matchAllTracks songs artistName accessToken w s in
  lookupsAuthorized w (calls s) artistName accessToken songs = true ->
  exists results,
    result run = Ok results /\
    List.length results = List.length songs /\
    map songName results = map name songs /\
    (forall r, In r results -> found r = false -> trackUri r = None) /\
    issued run
    = calls s ++ map (fun x => searchCall artistName accessToken (name x))
                   songs.
Proof.
  intros run Hauth. subst run.
  destruct (matchAllTracks_authorized _ _ _ _ _ Hauth)
    as (results & Hres & Hiss & Hnames & Hwf).
  exists results. split; [exact Hres|].
  split; [|split; [exact Hnames|split; [|exact Hiss]]].
  - apply (f_equal (@List.length jsstring)) in Hnames.
    now rewrite !length_map in Hnames.
  - intros r Hin Hfound. rewrite Forall_forall in Hwf.
    specialize (Hwf r Hin). rewrite Hfound in Hwf.
    now destruct (trackUri r).
Qed.


(** ** The builder *)

Ltac stepBuilder :=
  unfold createPlaylist, getUserId, createSpotifyPlaylist,
    addTracksToPlaylist, spotifyFailure;
  stepAsync.

(** The requests of [createPlaylist], however it ends. *)
Lemma createPlaylist_issued p w s :
  let token := pcp_accessToken p in
  let c1 := meCall token in
  issued (createPlaylist p w s) =
  calls s ++ c1 ::
    match http w (calls s) c1 with
    | Rejected _ => []
    | Resolved user =>
        let c2 := playlistCall (user_id user) (pcp_artistName p) (pcp_year p)
                    token in
        c2 ::
        match http w (calls s ++ [c1]) c2 with
        | Rejected _ => []
        | Resolved pl =>
            match pcp_trackUris p with
            | [] => []
            | _ :: _ => [tracksCall (playlist_id pl) (pcp_trackUris p) token]
            end
        end
    end.
Proof.
  intros token c1. subst token c1. cbv zeta.
  unfold issued, meCall, playlistCall, tracksCall. stepBuilder.
  destruct (http w (calls s) (GetMe _ _)) as [user|e]; cbn [calls fst].
  - destruct (http w (calls s ++ [_]) (PostPlaylist _ _ _ _ _)) as [pl|e];
      cbn [calls fst].
    + destruct (pcp_trackUris p) as [|u us] eqn:Eu; simpl.
      * now rewrite <- app_assoc.
      * destruct (http w _ (PostTracks _ _ _)) as [[]|e]; simpl.
        -- now rewrite <- !app_assoc.
        -- destruct e as [| | | |m [st|]| |]; simpl;
             try destruct (st =? 401); simpl; now rewrite <- !app_assoc.
    + destruct e as [| | | |m [st|]| |]; simpl;
        try destruct (st =? 401); simpl; now rewrite <- !app_assoc.
  - destruct e as [| | | |m [st|]| |]; simpl;
      try destruct (st =? 401); simpl; reflexivity.
Qed.

(** [createPlaylist] returns exactly when the identity and the creation
    requests resolved and the population request, if there was one, did. *)
Lemma createPlaylist_result p w s res :
  let token := pcp_accessToken p in
  let c1 := meCall token in
  result (createPlaylist p w s) = Ok res <->
  exists user pl,
    let c2 := playlistCall (user_id user) (pcp_artistName p) (pcp_year p)
                token in
    http w (calls s) c1 = Resolved user /\
    http w (calls s ++ [c1]) c2 = Resolved pl /\
    (pcp_trackUris p = [] \/
     http w (calls s ++ [c1; c2])
       (tracksCall (playlist_id pl) (pcp_trackUris p) token) = Resolved tt) /\
    res = {| playlistId := playlist_id pl;
             tracksAdded := Z.of_nat (List.length (pcp_trackUris p));
             year := pcp_year p |}.
Proof.
  intros token c1. subst token c1. cbv zeta.
  unfold result, meCall, playlistCall, tracksCall. stepBuilder.
  destruct (http w (calls s) (GetMe _ _)) as [user|e]; cbn [calls snd].
  - destruct (http w (calls s ++ [_]) (PostPlaylist _ _ _ _ _)) as [pl|e] eqn:E2;
      cbn [calls snd].
    + destruct (pcp_trackUris p) as [|u us] eqn:Eu; simpl.
      * split.
        -- intros [= <-]. exists user, pl. rewrite E2. auto.
        -- intros (user' & pl' & [= <-] & Hpl & _ & ->).
           rewrite E2 in Hpl. now injection Hpl as <-.
      * rewrite <- app_assoc. simpl app.
        destruct (http w _ (PostTracks _ _ _)) as [[]|e] eqn:E3; simpl.
        -- split.
           ++ intros [= <-]. exists user, pl. rewrite E2, E3. auto.
           ++ intros (user' & pl' & [= <-] & Hpl & _ & ->).
              rewrite E2 in Hpl. now injection Hpl as <-.
        -- split.
           ++ destruct e as [| | | |m [st|]| |]; simpl;
                try destruct (st =? 401); simpl; discriminate.
           ++ intros (user' & pl' & [= <-] & Hpl & [?|H3] & _);
                [discriminate|].
              rewrite E2 in Hpl. injection Hpl as <-.
              rewrite E3 in H3. discriminate.
    + split.
      * destruct e as [| | | |m [st|]| |]; simpl;
          try destruct (st =? 401); simpl; discriminate.
      * intros (user' & pl' & [= <-] & Hpl & _). rewrite E2 in Hpl.
        discriminate.
  - split.
    + destruct e as [| | | |m [st|]| |]; simpl;
        try destruct (st =? 401); simpl; discriminate.
    + intros (user' & pl' & Hu & _). discriminate.
Qed.


(** C8: a build without tracks never issues a population request; once the
    account and the playlist requests have resolved, it returns
    [tracksAdded = 0] for the private playlist it created, having issued
    those two requests only.  A build with tracks then issues one population
    request, with all the tracks in the order given, and returns their
    number when that request resolves. *)
Theorem createPlaylist_population p w s (user : SpotifyUserResponse)
    (pl : SpotifyPlaylistResponse) :
  let run := createPlaylist p w s in
  let token := pcp_accessToken p in
  let c1 := GetMe meUrl (bearer token) in
  let c2 := PostPlaylist (playlistsUrl (user_id user))
              (playlistName (pcp_artistName p) (pcp_year p)) false
              (playlistDescription (pcp_artistName p) (pcp_year p))
              (bearer token) in
  let c3 := PostTracks (tracksUrl (playlist_id pl)) (pcp_trackUris p)
              (bearer token) in
  (pcp_trackUris p = [] ->
   exists new,
     issued run = calls s ++ new /\
     forall url uris authorization,
       ~ In (PostTracks url uris authorization) new) /\
  (http w (calls s) c1 = Resolved user ->
   http w (calls s ++ [c1]) c2 = Resolved pl ->
   (pcp_trackUris p = [] ->
    issued run = calls s ++ [c1; c2] /\
    result run = Ok {| playlistId := playlist_id pl; tracksAdded := 0;
                       year := pcp_year p |}) /\
   (pcp_trackUris p <> [] ->
    issued run = calls s ++ [c1; c2; c3] /\
    (http w (calls s ++ [c1; c2]) c3 = Resolved tt ->
     result run
     = Ok {| playlistId := playlist_id pl;
             tracksAdded := Z.of_nat (List.length (pcp_trackUris p));
             year := pcp_year p |}))).
Proof.
  intros run token c1 c2 c3.
  pose proof (createPlaylist_issued p w s) as Hiss. cbv zeta in Hiss.
  fold token run in Hiss. change (meCall token) with c1 in Hiss.
  split.
  - intros Hnil. rewrite Hnil in Hiss. eexists. split; [exact Hiss|].
    intros url uris authorization [Hin|Hin]; [discriminate|].
    destruct (http w (calls s) c1) as [u|e]; [|contradiction].
    destruct Hin as [Hin|Hin]; [discriminate|].
    destruct (http w _ _); contradiction.
  - intros H1 H2. rewrite H1 in Hiss.
    change (playlistCall (user_id user) (pcp_artistName p) (pcp_year p)
              token) with c2 in Hiss.
    rewrite H2 in Hiss.
    change (tracksCall (playlist_id pl) (pcp_trackUris p) token) with c3
      in Hiss.
    split.
    + intros Hnil. rewrite Hnil in Hiss. split; [exact Hiss|].
      apply createPlaylist_result. exists user, pl. cbv zeta.
      fold token. rewrite Hnil. simpl. auto.
    + intros Hne. split.
      * destruct (pcp_trackUris p); [congruence | exact Hiss].
      * intros H3. apply createPlaylist_result. exists user, pl. cbv zeta.
        fold token. auto.
Qed.

(** ** The orchestrator *)

(** The three stages in sequence, for a request that passes validation. *)
Lemma handleCreatePlaylist_stages request w s :
  accepted w request ->
  let artist := present (artistName request) in
  let token := present (accessToken request) in
  handleCreatePlaylist request w s =
  match getAverageSetlist {| asp_artistId := present (artistId request);
                             asp_year := req_year request |}
          (configuredKey w) w s with
  | (s1, Throw e) => (s1, Throw (rethrown e))
  | (s1, Ok songs) =>
      match matchAllTracks songs artist token w s1 with
      | (s2, Throw e) => (s2, Throw (rethrown e))
      | (s2, Ok trackResults) =>
          match createPlaylist
                  {| pcp_artistName := artist;
                     pcp_year := targetYearOf w s2 (req_year request);
                     pcp_trackUris := collectUris trackResults;
                     pcp_accessToken := token |} w s2 with
          | (s3, Throw e) => (s3, Throw (rethrown e))
          | (s3, Ok playlistResult) => (s3, Ok playlistResult)
          end
      end
  end.
Proof.
  intros (Ht & Hi & Hn & apiKey & Hkey & Hfalsy) artist token.
  unfold handleCreatePlaylist, configuredKey. rewrite Ht, Hi, Hn. cbv zeta.
  fold artist token.
  unfold tryCatch at 1, bind at 1, envApiKey. rewrite Hkey, Hfalsy.
  simpl present. unfold bind at 1.
  destruct (getAverageSetlist _ apiKey w s) as [s1 [songs|e]].
  - unfold bind at 1.
    destruct (matchAllTracks songs artist token w s1) as [s2 [results|e]].
    + rewrite resolveYear. unfold bind at 1.
      destruct (createPlaylist _ w s2) as [s3 [res|e]].
      * reflexivity.
      * unfold rethrown. destruct (instanceofError e); reflexivity.
    + unfold rethrown. destruct (instanceofError e); reflexivity.
  - unfold rethrown. destruct (instanceofError e); reflexivity.
Qed.

(** [trim] leaves nothing exactly of the strings made of white space. *)
Lemma trimStart_nil s :
  trimStart s = [] <-> Forall (fun c => isWhiteSpace c = true) s.
Proof.
  induction s as [|c s IH]; simpl.
  - split; [constructor | reflexivity].
  - destruct (isWhiteSpace c) eqn:E.
    + rewrite IH. split; [now constructor | now inversion 1].
    + split; [discriminate | inversion 1; congruence].
Qed.

Lemma trimStart_suffix s : exists pre,
  s = pre ++ trimStart s /\ Forall (fun c => isWhiteSpace c = true) pre.
Proof.
  induction s as [|c s (pre & Hs & Hpre)]; simpl.
  - exists []. now split.
  - destruct (isWhiteSpace c) eqn:E.
    + exists (c :: pre). simpl. split; [now f_equal | now constructor].
    + exists []. now split.
Qed.

Lemma trim_nil s :
  trim s = [] <-> Forall (fun c => isWhiteSpace c = true) s.
Proof.
  unfold trim, trimEnd.
  destruct (trimStart_suffix s) as (pre & Hs & Hpre).
  split.
  - intros H. apply (f_equal (@rev N)) in H. rewrite rev_involutive in H.
    simpl in H. apply trimStart_nil in H. apply Forall_rev in H.
    rewrite rev_involutive in H. rewrite Hs. apply Forall_app. now split.
  - intros H. rewrite Hs in H. apply Forall_app in H as [_ H].
    apply Forall_rev in H. apply trimStart_nil in H. now rewrite H.
Qed.

Lemma missingOrBlank_blank x : missingOrBlank x = true <-> blank x.
Proof.
  destruct x as [v|]; simpl; [|tauto].
  unfold eqb. destruct (eq_dec (trim v) []) as [E|E].
  - rewrite orb_true_r. tauto.
  - rewrite orb_false_r. split; [|contradiction].
    destruct v; [reflexivity | discriminate].
Qed.

(** C9: when the access token, the artist id or the artist name of a request
    is missing or blank after trimming, [handleCreatePlaylist] throws a
    [ValidationError] whose [field] is one of the missing or blank fields (the
    first one in the order access token, artist id, artist name), and it
    does so at once: no request is issued and nothing is logged. *)
Theorem handleCreatePlaylist_validates request w s :
  blank (accessToken request) \/ blank (artistId request)
  \/ blank (artistName request) ->
  exists message field,
    handleCreatePlaylist request w s
    = (s, Throw (ValidationError message
                   [("field"%string, VString (str field))])) /\
    ((field = "accessToken"%string /\ blank (accessToken request)) \/
     (field = "artistId"%string /\ blank (artistId request)
      /\ ~ blank (accessToken request)) \/
     (field = "artistName"%string /\ blank (artistName request)
      /\ ~ blank (accessToken request) /\ ~ blank (artistId request))).
Proof.
  intros H.
  assert (Hno : forall x, missingOrBlank x = false -> ~ blank x).
  { intros x E Hb. apply missingOrBlank_blank in Hb. congruence. }
  unfold handleCreatePlaylist, fieldError, throw.
  destruct (missingOrBlank (accessToken request)) eqn:Et.
  - apply missingOrBlank_blank in Et.
    eexists _, _. split; [reflexivity|]. left. now split.
  - apply Hno in Et.
    destruct (missingOrBlank (artistId request)) eqn:Ei.
    + apply missingOrBlank_blank in Ei.
      eexists _, _. split; [reflexivity|]. right; left. now repeat split.
    + apply Hno in Ei.
      destruct (missingOrBlank (artistName request)) eqn:En.
      * apply missingOrBlank_blank in En.
        eexists _, _. split; [reflexivity|]. right; right.
        now repeat split.
      * apply Hno in En. tauto.
Qed.

(** A request that is not accepted is answered by a [ValidationError]. *)
Lemma handleCreatePlaylist_Ok_accepted request w s res :
  result (handleCreatePlaylist request w s) = Ok res -> accepted w request.
Proof.
  unfold handleCreatePlaylist, accepted, result.
  destruct (missingOrBlank (accessToken request)); [discriminate|].
  destruct (missingOrBlank (artistId request)); [discriminate|].
  destruct (missingOrBlank (artistName request)); [discriminate|].
  cbv zeta. unfold tryCatch, bind at 1, envApiKey.
  destruct (SETLISTFM_API_KEY w) as [key|]; [|discriminate].
  destruct (falsy key) eqn:E; [discriminate|].
  intros _. repeat split. now exists key.
Qed.

(** The aggregator only talks to the setlist service. *)
Lemma getAverageSetlist_setlist_calls params apiKey w s :
  exists fetches,
    issued (getAverageSetlist params apiKey w s) = calls s ++ fetches /\
    Forall (fun c => isSetlistCall c = true) fetches.
Proof.
  destruct params as [artist y].
  rewrite getAverageSetlist_issued. cbv zeta.
  eexists. split; [reflexivity|].
  constructor; [reflexivity|].
  destruct (http w (calls s) _) as [first|e]; [|constructor].
  destruct (distinctSongs first =? 0)%nat; repeat constructor.
Qed.

(** Only a result with a track contributes to the playlist, and a result of
    [matchAllTracks] has a track exactly when it is found. *)
Lemma collectUris_length results :
  Forall (fun r => found r =
                   match trackUri r with Some _ => true | None => false end)
    results ->
  List.length (collectUris results) = List.length (filter found results).
Proof.
  unfold collectUris. rewrite length_map.
  induction 1 as [|r rs Hr Hrs IH]; simpl; [reflexivity|].
  rewrite Hr. destruct (trackUri r); simpl; now rewrite IH.
Qed.

(** C4: in a run of [handleCreatePlaylist] that reached the resolution pass,
    if the lookup of a song is refused with status 401 after the lookups of
    the songs before it were not, then the run throws the
    [AuthenticationError], and the requests it issued are those of the
    aggregator followed by the lookups up to and including that song: no
    lookup for a later song and no request of the builder, however many
    songs were resolved before. *)
Theorem handleCreatePlaylist_aborts_on_401 request w s s1 pre song post e :
  let artist := present (artistName request) in
  let token := present (accessToken request) in
  let lookup := fun x => searchCall artist token (name x) in
  let run := handleCreatePlaylist request w s in
  accepted w request ->
  getAverageSetlist {| asp_artistId := present (artistId request);
                       asp_year := req_year request |}
    (configuredKey w) w s = (s1, Ok (pre ++ song :: post)) ->
  lookupsAuthorized w (calls s1) artist token pre = true ->
  http w (calls s1 ++ map lookup pre) (lookup song) = Rejected e ->
  isUnauthorized e = true ->
  result run
  = Throw (AuthenticationError (str "Invalid or expired access token")
             [("statusCode"%string, VNumber 401)]) /\
  exists fetches,
    Forall (fun c => isSetlistCall c = true) fetches /\
    issued run = calls s ++ fetches ++ map lookup (pre ++ [song]) /\
    Forall (fun c => isPlaylistCall c = false)
      (fetches ++ map lookup (pre ++ [song])).
Proof.
  intros artist token lookup run Hacc Hget Hpre Hrej Hun. subst run.
  rewrite (handleCreatePlaylist_stages _ _ _ Hacc). cbv zeta.
  fold artist token. rewrite Hget.
  rewrite (matchAllTracks_unauthorized artist token song post e pre w s1
             Hpre Hrej Hun).
  split; [reflexivity|].
  destruct (getAverageSetlist_setlist_calls
              {| asp_artistId := present (artistId request);
                 asp_year := req_year request |} (configuredKey w) w s)
    as (fetches & Hiss & Hall).
  rewrite Hget in Hiss. unfold issued in Hiss. simpl in Hiss.
  exists fetches. split; [exact Hall|]. unfold issued. simpl.
  split; [now rewrite Hiss, <- app_assoc|].
  apply Forall_app. split.
  - eapply Forall_impl; [|exact Hall]. intros [] Hc; now try discriminate.
  - apply Forall_forall. intros c Hc. apply in_map_iff in Hc as (x & <- & _).
    reflexivity.
Qed.

(** C5: when [handleCreatePlaylist] returns, the aggregator and the resolver
    have returned in that run, and [tracksAdded] is the number of results of
    the resolver with [found = true]. *)
Theorem handleCreatePlaylist_tracksAdded request w s res :
  result (handleCreatePlaylist request w s) = Ok res ->
  exists songs s1 trackResults s2,
    getAverageSetlist {| asp_artistId := present (artistId request);
                         asp_year := req_year request |}
      (configuredKey w) w s = (s1, Ok songs) /\
    matchAllTracks songs (present (artistName request))
      (present (accessToken request)) w s1 = (s2, Ok trackResults) /\
    tracksAdded res
    = Z.of_nat (List.length (filter found trackResults)).
Proof.
  intros Hok. pose proof (handleCreatePlaylist_Ok_accepted _ _ _ _ Hok) as Hacc.
  rewrite (handleCreatePlaylist_stages _ _ _ Hacc) in Hok. cbv zeta in Hok.
  destruct (getAverageSetlist _ _ w s) as [s1 [songs|e]];
    [|discriminate].
  destruct (matchAllTracks songs _ _ w s1) as [s2 [results|e]] eqn:Em;
    [|discriminate].
  exists songs, s1, results, s2. split; [reflexivity|].
  split; [exact Em|].
  assert (Hwf : Forall (fun r => found r =
                          match trackUri r with
                          | Some _ => true | None => false end) results).
  { assert (Hr : result (matchAllTracks songs
                           (present (artistName request))
                           (present (accessToken request)) w s1)
                 = Ok results) by now rewrite Em.
    apply matchAllTracks_Ok in Hr.
    destruct (matchAllTracks_authorized _ _ _ _ _ Hr)
      as (results' & Hres & _ & _ & Hwf).
    rewrite Em in Hres. unfold result in Hres. simpl in Hres.
    now injection Hres as <-. }
  rewrite <- (collectUris_length _ Hwf).
  match type of Hok with
  | result (match createPlaylist ?p w s2 with _ => _ end) = _ =>
      assert (Hc : result (createPlaylist p w s2) = Ok res)
        by (destruct (createPlaylist p w s2) as [s3 [r|e]];
            [exact Hok | discriminate])
  end.
  apply createPlaylist_result in Hc.
  destruct Hc as (user & pl & _ & _ & _ & ->). reflexivity.
Qed.





(** * The properties on concrete runs *)

Import Examples.

Lemma fetchSetlistForYear_ranks_witness :
  let data := performances [["A"; "B"; "A"]; ["A"; "C"]; ["B"]]%string in
  let run := fetchSetlistForYear artist 2024 (str "k") worldShows initial in
  http worldShows (calls initial)
    (GetSetlists (setlistsUrl artist) 2024 (str "k")) = Resolved data /\
  exists songs,
    result run = Ok songs /\
    issued run
    = calls initial ++ [GetSetlists (setlistsUrl artist) 2024 (str "k")] /\
    (forall n, orZero (mapGet (countSongs data) n) = frequency data n) /\
    (forall n, In n (map name songs) <-> In n (played data)) /\
    NoDup (map name songs) /\
    StronglySorted (ranksBefore data) (map name songs) /\
    map position songs = map Z.of_nat (seq 1 (distinctSongs data)).
Proof.
  split; [reflexivity|].
  exact (fetchSetlistForYear_ranks worldShows initial artist 2024 (str "k")
           _ eq_refl).
Defined.




Lemma matchAllTracks_one_result_per_song_witness :
  let songs := [rankedSong "A" 1; rankedSong "B" 2; rankedSong "C" 3] in
  let run := matchAllTracks songs (str "Band") (str "token") worldShows
               initial in
  lookupsAuthorized worldShows (calls initial) (str "Band") (str "token")
    songs = true /\
  exists results,
    result run = Ok results /\
    List.length results = 3%nat /\
    map songName results = [str "A"; str "B"; str "C"] /\
    (forall r, In r results -> found r = false -> trackUri r = None) /\
    issued run
    = map (searchCall (str "Band") (str "token"))
        [str "A"; str "B"; str "C"].
Proof.
  split; [reflexivity|].
  exact (matchAllTracks_one_result_per_song worldShows initial
           [rankedSong "A" 1; rankedSong "B" 2; rankedSong "C" 3]
           (str "Band") (str "token") eq_refl).
Defined.


Lemma accepted_request w y :
  SETLISTFM_API_KEY w = key -> accepted w (request y).
Proof.
  intros Hkey. repeat split. exists (str "k"). now rewrite Hkey.
Defined.

Lemma handleCreatePlaylist_aborts_on_401_witness :
  let lookup := fun n => searchCall (str "Band") (str "token") (str n) in
  let fetch := GetSetlists (setlistsUrl artist) 2024 (str "k") in
  let run := handleCreatePlaylist (request (Some 2024)) worldExpired initial in
  result run
  = Throw (AuthenticationError (str "Invalid or expired access token")
             [("statusCode"%string, VNumber 401)]) /\
  exists fetches,
    Forall (fun c => isSetlistCall c = true) fetches /\
    issued run = fetches ++ [lookup "A"; lookup "B"]%string /\
    Forall (fun c => isPlaylistCall c = false)
      (fetches ++ [lookup "A"; lookup "B"]%string).
Proof.
  exact (handleCreatePlaylist_aborts_on_401 (request (Some 2024))
           worldExpired initial
           {| calls := [GetSetlists (setlistsUrl artist) 2024 (str "k")];
              console := [] |}
           [rankedSong "A" 1] (rankedSong "B" 2) [rankedSong "C" 3]
           (AxiosError (str "Request failed with status code 401")
              (Some 401))
           (accepted_request worldExpired (Some 2024) eq_refl)
           eq_refl eq_refl eq_refl eq_refl).
Defined.

Lemma handleCreatePlaylist_tracksAdded_witness :
  let res := {| playlistId := str "p1"; tracksAdded := 2; year := 2024 |} in
  result (handleCreatePlaylist (request (Some 2024)) worldShows initial)
  = Ok res /\
  exists songs s1 trackResults s2,
    getAverageSetlist {| asp_artistId := artist; asp_year := Some 2024 |}
      (str "k") worldShows initial = (s1, Ok songs) /\
    matchAllTracks songs (str "Band") (str "token") worldShows s1
    = (s2, Ok trackResults) /\
    2 = Z.of_nat (List.length (filter found trackResults)).
Proof.
  split; [reflexivity|].
  exact (handleCreatePlaylist_tracksAdded (request (Some 2024)) worldShows
           initial
           {| playlistId := str "p1"; tracksAdded := 2; year := 2024 |}
           eq_refl).
Defined.

Lemma createPlaylist_population_witness :
  let c1 := GetMe meUrl (bearer (str "token")) in
  let c2 := PostPlaylist (playlistsUrl (str "u1"))
              (playlistName (str "Band") 2024) false
              (playlistDescription (str "Band") 2024)
              (bearer (str "token")) in
  let c3 := PostTracks (tracksUrl (str "p1")) [str "t1"; str "t2"]
              (bearer (str "token")) in
  (issued (createPlaylist (build []) worldShows initial) = [c1; c2] /\
   result (createPlaylist (build []) worldShows initial)
   = Ok {| playlistId := str "p1"; tracksAdded := 0; year := 2024 |}) /\
  (issued (createPlaylist (build ["t1"; "t2"]%string) worldShows initial)
   = [c1; c2; c3] /\
   result (createPlaylist (build ["t1"; "t2"]%string) worldShows initial)
   = Ok {| playlistId := str "p1"; tracksAdded := 2; year := 2024 |}).
Proof.
  split.
  - destruct (createPlaylist_population (build []) worldShows initial
                {| user_id := str "u1"; display_name := str "User" |}
                {| playlist_id := str "p1"; playlist_name := [];
                   playlist_public := false |})
      as [_ Hbuilt].
    destruct (Hbuilt eq_refl eq_refl) as [Hempty _].
    exact (Hempty eq_refl).
  - destruct (createPlaylist_population (build ["t1"; "t2"]%string)
                worldShows initial
                {| user_id := str "u1"; display_name := str "User" |}
                {| playlist_id := str "p1"; playlist_name := [];
                   playlist_public := false |})
      as [_ Hbuilt].
    destruct (Hbuilt eq_refl eq_refl) as [_ Hfull].
    destruct (Hfull ltac:(discriminate)) as [Hissued Hresult].
    split; [exact Hissued | exact (Hresult eq_refl)].
Defined.

Lemma handleCreatePlaylist_validates_witness :
  let request :=
    {| artistId := Some artist; artistName := Some (str "Band");
       req_year := None; accessToken := Some (str "   ") |} in
  blank (accessToken request) /\
  exists message field,
    handleCreatePlaylist request worldShows initial
    = (initial, Throw (ValidationError message
                         [("field"%string, VString (str field))])) /\
    ((field = "accessToken"%string /\ blank (accessToken request)) \/
     (field = "artistId"%string /\ blank (artistId request)
      /\ ~ blank (accessToken request)) \/
     (field = "artistName"%string /\ blank (artistName request)
      /\ ~ blank (accessToken request) /\ ~ blank (artistId request))).
Proof.
  split; [reflexivity|].
  exact (handleCreatePlaylist_validates
           {| artistId := Some artist; artistName := Some (str "Band");
              req_year := None; accessToken := Some (str "   ") |}
           worldShows initial (or_introl eq_refl)).
Defined.


(** ** The scenarios of the specification, evaluated *)

(** Performances [A,B,A], [A,C], [B]: A is played three times, B twice, C
    once. *)
Example scenario_ranked :
  result (fetchSetlistForYear artist 2024 (str "k") worldShows initial)
  = Ok [rankedSong "A" 1; rankedSong "B" 2; rankedSong "C" 3].
Proof. reflexivity. Qed.

(** B and A are played twice each, B first. *)
Example scenario_tie :
  sortedSongs (countSongs (performances [["B"; "A"]; ["A"; "B"; "C"]]%string))
  = [rankedSong "B" 1; rankedSong "A" 2; rankedSong "C" 3].
Proof. reflexivity. Qed.

(** The songs come from 2023, the playlist is the one of 2024. *)
Example scenario_fallback :
  result (handleCreatePlaylist (request (Some 2024)) worldLastYear initial)
  = Ok {| playlistId := str "p1"; tracksAdded := 1; year := 2024 |}.
Proof. reflexivity. Qed.

Example scenario_no_data :
  result (handleCreatePlaylist (request (Some 2024)) worldSilent initial)
  = Throw (DataNotFoundError
             (str "No setlist data found for artist 53926dfc in years 2024 or 2023")
             [("artistId"%string, VString artist);
              ("targetYear"%string, VNumber 2024);
              ("retryYear"%string, VNumber 2023)]).
Proof. reflexivity. Qed.

(** A and C are found, B is not: the playlist gets two tracks. *)
Example scenario_partial :
  result (matchAllTracks [rankedSong "A" 1; rankedSong "B" 2; rankedSong "C" 3]
            (str "Band") (str "token") worldShows initial)
  = Ok [ {| songName := str "A"; trackUri := Some (str "spotify:track:1");
            found := true |};
         {| songName := str "B"; trackUri := None; found := false |};
         {| songName := str "C"; trackUri := Some (str "spotify:track:1");
            found := true |} ] /\
  result (handleCreatePlaylist (request (Some 2024)) worldShows initial)
  = Ok {| playlistId := str "p1"; tracksAdded := 2; year := 2024 |}.
Proof. split; reflexivity. Qed.

Example scenario_expired :
  result (handleCreatePlaylist (request (Some 2024)) worldExpired initial)
  = Throw (AuthenticationError (str "Invalid or expired access token")
             [("statusCode"%string, VNumber 401)]) /\
  filter isPlaylistCall
    (issued (handleCreatePlaylist (request (Some 2024)) worldExpired initial))
  = [].
Proof. split; reflexivity. Qed.

Example scenario_title :
  playlistName (str "Band") 2024
  = str "Band " ++ [8212%N] ++ str " Average Setlist 2024".
Proof. reflexivity. Qed.

Example scenario_trim :
  trim (str " 53926dfc ") = str "53926dfc" /\ trim [9; 160; 8232; 32]%N = [].
Proof. split; reflexivity. Qed.

(** Years beyond the safe integers: 2^53 + 1 is no double, so that the year
    before 2^53 + 2 is 2^53 and 9007199254740993 is read as
    9007199254740992. *)
Example scenario_year_rounding :
  roundDouble (2 ^ 53 + 1) = 2 ^ 53 /\
  subtract (2 ^ 53 + 2) 1 = 2 ^ 53 /\
  subtract (2 ^ 53) 1 = 2 ^ 53 - 1 /\
  parseInt10 (str "9007199254740993") = Some 9007199254740992 /\
  parseInt10 (str " -12abc") = Some (-12) /\
  parseInt10 (str "abc") = None.
Proof. repeat split; vm_compute; reflexivity. Qed.

(** The text of a year: its decimal numeral up to 2^53, the shortest digits
    that are read back as the number beyond, the exponent form from 10^21
    on. *)
Example scenario_year_text :
  numberToString 2024 = str "2024" /\
  numberToString (2 ^ 53) = str "9007199254740992" /\
  numberToString (2 ^ 64) = str "18446744073709552000" /\
  numberToString (10 ^ 21) = str "1e+21" /\
  numberToString (2 ^ 70) = str "1.1805916207174113e+21" /\
  playlistName (str "Band") (10 ^ 21)
  = str "Band " ++ [8212%N] ++ str " Average Setlist 1e+21".
Proof. repeat split; vm_compute; reflexivity. Qed.

(** * Further properties of the code *)

(** ** The aggregator *)

(** How [getAverageSetlist] can end: with the ranked songs of the last
    answer of the service, which are not empty, and nothing logged; or with
    one of its two errors. *)
Lemma getAverageSetlist_outcome w s artistId year apiKey :
  let run :=
    getAverageSetlist {| asp_artistId := artistId; asp_year := year |}
      apiKey w s in
  match result run with
  | Ok songs =>
      songs <> [] /\
      (exists data, songs = sortedSongs (countSongs data)) /\
      console (fst run) = console s
  | Throw e =>
      instanceofExternalAPIError e || instanceofDataNotFoundError e = true
  end.
Proof.
  intros run. subst run.
  unfold getAverageSetlist. cbv zeta. simpl asp_artistId. simpl asp_year.
  rewrite resolveYear. unfold result. stepAsync.
  destruct (http w (calls s) _) as [first|e].
  - destruct (sortedSongs (countSongs first)) as [|x l] eqn:E1; simpl.
    + destruct (http w _ _) as [second|e].
      * destruct (sortedSongs (countSongs second)) as [|y l'] eqn:E2; simpl;
          [reflexivity|].
        split; [discriminate|]. split; [|reflexivity].
        exists second. now rewrite E2.
      * destruct e; reflexivity.
    + split; [discriminate|]. split; [|reflexivity].
      exists first. now rewrite E1.
  - destruct e; reflexivity.
Qed.

(** X1: when [getAverageSetlist] returns, the list is never empty, the
    positions are 1, 2, ..., up to its length and no name occurs twice. *)
Theorem getAverageSetlist_returns_ranking w s params apiKey songs :
  result (getAverageSetlist params apiKey w s) = Ok songs ->
  songs <> [] /\
  map position songs = map Z.of_nat (seq 1 (List.length songs)) /\
  NoDup (map name songs).
Proof.
  destruct params as [artistId year]. intros Hok.
  pose proof (getAverageSetlist_outcome w s artistId year apiKey) as Hout.
  cbv zeta in Hout. rewrite Hok in Hout.
  destruct Hout as (Hne & (data & ->) & _).
  split; [exact Hne|].
  destruct (sortedSongs_ranked data) as (_ & Hnd & _ & Hpos).
  rewrite sortedSongs_length. now split.
Qed.

(** X2: [getAverageSetlist] throws nothing but an [ExternalAPIError] or a
    [DataNotFoundError], whatever the service rejects with. *)
Theorem getAverageSetlist_throws w s params apiKey e :
  result (getAverageSetlist params apiKey w s) = Throw e ->
  instanceofExternalAPIError e = true \/ instanceofDataNotFoundError e = true.
Proof.
  destruct params as [artistId year]. intros Hthrow.
  pose proof (getAverageSetlist_outcome w s artistId year apiKey) as Hout.
  cbv zeta in Hout. rewrite Hthrow in Hout.
  now apply orb_true_iff in Hout.
Qed.

(** X3: when the fetch for the target year is rejected, there is no fetch
    for the year before.  An axios error is reported as the
    [ExternalAPIError] of the service [setlist.fm] that carries its status
    and the year, and is logged once; any other [Error] that is not one of
    the two errors of the aggregator is wrapped in an [ExternalAPIError]
    without details. *)
Theorem getAverageSetlist_service_failure w s artistId year apiKey e :
  let run :=
    getAverageSetlist {| asp_artistId := artistId; asp_year := year |}
      apiKey w s in
  let t := targetYearOf w s year in
  http w (calls s) (GetSetlists (setlistsUrl artistId) t apiKey)
  = Rejected e ->
  issued run = calls s ++ [GetSetlists (setlistsUrl artistId) t apiKey] /\
  (isAxiosError e = true ->
   result run
   = Throw (ExternalAPIError
              (str "setlist.fm API request failed: " ++ errorMessage e)
              (str "setlist.fm")
              [("statusCode"%string, optNumber (responseStatus e));
               ("year"%string, VNumber t)]) /\
   List.length (console (fst run)) = S (List.length (console s))) /\
  (isAxiosError e = false ->
   instanceofError e = true ->
   instanceofExternalAPIError e || instanceofDataNotFoundError e = false ->
   result run
   = Throw (ExternalAPIError
              (str "Failed to fetch setlist: " ++ errorMessage e)
              (str "setlist.fm") [])).
Proof.
  intros run t Hrej.
  pose proof (getAverageSetlist_issued w s artistId year apiKey) as Hiss.
  cbv beta zeta in Hiss. fold t in Hiss. fold run in Hiss.
  rewrite Hrej in Hiss.
  split; [exact Hiss|].
  subst run. unfold getAverageSetlist. cbv zeta.
  simpl asp_artistId. simpl asp_year. rewrite resolveYear. fold t.
  unfold result. stepAsync. rewrite Hrej.
  split.
  - intros Hax. destruct e; try discriminate Hax. simpl.
    split; [reflexivity|]. rewrite length_app. simpl. lia.
  - intros Hax Herr Hcls. destruct e; try discriminate; reflexivity.
Qed.

(** X4: when the target year, a safe integer, has no song and the fetch for
    the year before is rejected by an axios error, the run reports the
    failure of the service for that year, not missing data. *)
Theorem getAverageSetlist_fallback_failure w s artistId year apiKey
    (first : SetlistFmResponse) e :
  let run :=
    getAverageSetlist {| asp_artistId := artistId; asp_year := year |}
      apiKey w s in
  let t := targetYearOf w s year in
  let fetch := fun y => GetSetlists (setlistsUrl artistId) y apiKey in
  safeInteger t ->
  http w (calls s) (fetch t) = Resolved first ->
  distinctSongs first = 0%nat ->
  http w (calls s ++ [fetch t]) (fetch (t - 1)) = Rejected e ->
  isAxiosError e = true ->
  result run
  = Throw (ExternalAPIError
             (str "setlist.fm API request failed: " ++ errorMessage e)
             (str "setlist.fm")
             [("statusCode"%string, optNumber (responseStatus e));
              ("year"%string, VNumber (t - 1))]).
Proof.
  intros run t fetch Hsafe H1 Hz H2 Hax. subst run fetch.
  cbv beta in H1, H2.
  unfold getAverageSetlist. cbv zeta.
  simpl asp_artistId. simpl asp_year. rewrite resolveYear. fold t.
  rewrite (subtract_safe t Hsafe).
  unfold result. stepAsync.
  rewrite H1. rewrite <- sortedSongs_length in Hz.
  rewrite Hz, Nat.eqb_refl. cbv beta iota. cbn [calls]. rewrite H2.
  destruct e; try discriminate Hax. reflexivity.
Qed.

(** X5: the ranking depends on the sequence of the names played only: a
    record without sets, a set without songs and the way the songs are
    grouped into sets and records change nothing. *)
Theorem sortedSongs_played_only data1 data2 :
  played data1 = played data2 ->
  sortedSongs (countSongs data1) = sortedSongs (countSongs data2).
Proof. intros H. now rewrite !countSongs_played, H. Qed.

(** ** The resolver *)

(** The console and the error of a resolution pass. *)
Lemma matchAllTracks_console artistName accessToken songs : forall w s,
  let run := matchAllTracks songs artistName accessToken w s in
  console (fst run) = console s /\
  forall e,
    result run = Throw e ->
    e = AuthenticationError (str "Invalid or expired access token")
          [("statusCode"%string, VNumber 401)].
Proof.
  induction songs as [|song rest IH]; intros w s; cbv zeta.
  - unfold matchAllTracks, result. simpl. split; [reflexivity | discriminate].
  - rewrite matchAllTracks_cons, searchSpotifyTrack_run.
    set (s1 := {| calls := calls s ++ [searchCall artistName accessToken
                                         (name song)];
                  console := console s |}).
    destruct (IH w s1) as [Hcon Hthrow]. unfold result in *.
    assert (Hgo : forall r : TrackSearchResult,
               console (fst (match matchAllTracks rest artistName accessToken
                                     w s1 with
                             | (s', Ok rs) => (s', Ok (r :: rs))
                             | (s', Throw e) => (s', Throw e)
                             end)) = console s /\
               forall e,
                 snd (match matchAllTracks rest artistName accessToken
                              w s1 with
                      | (s', Ok rs) => (s', Ok (r :: rs))
                      | (s', Throw e) => (s', Throw e)
                      end) = Throw e ->
                 e = AuthenticationError
                       (str "Invalid or expired access token")
                       [("statusCode"%string, VNumber 401)]).
    { intros r.
      destruct (matchAllTracks rest artistName accessToken w s1)
        as [s' [rs|e']]; simpl in *; (split; [exact Hcon|]).
      - discriminate.
      - exact Hthrow. }
    destruct (http w (calls s) _) as [response|e].
    + destruct (items (tracks response)); apply Hgo.
    + destruct (isUnauthorized e); [|apply Hgo].
      simpl. split; [reflexivity|]. now intros e' [= <-].
Qed.

(** The lookups of a pass are those of the first songs, one each, in
    order. *)
Lemma matchAllTracks_lookups artistName accessToken songs : forall w s,
  exists k,
    issued (matchAllTracks songs artistName accessToken w s)
    = calls s ++ map (fun x => searchCall artistName accessToken (name x))
                   (firstn k songs).
Proof.
  induction songs as [|song rest IH]; intros w s.
  - exists 0%nat. unfold matchAllTracks, issued. simpl.
    now rewrite app_nil_r.
  - rewrite matchAllTracks_cons, searchSpotifyTrack_run.
    set (s1 := {| calls := calls s ++ [searchCall artistName accessToken
                                         (name song)];
                  console := console s |}).
    destruct (IH w s1) as (k & Hiss). unfold issued in *.
    assert (Hgo : forall r : TrackSearchResult,
               calls (fst (match matchAllTracks rest artistName accessToken
                                   w s1 with
                           | (s', Ok rs) => (s', Ok (r :: rs))
                           | (s', Throw e) => (s', Throw e)
                           end))
               = calls s
                 ++ map (fun x => searchCall artistName accessToken (name x))
                      (firstn (S k) (song :: rest))).
    { intros r.
      destruct (matchAllTracks rest artistName accessToken w s1)
        as [s' [rs|e']]; simpl in *; rewrite Hiss; subst s1; simpl;
        now rewrite <- app_assoc. }
    destruct (http w (calls s) _) as [response|e].
    + exists (S k). destruct (items (tracks response)); apply Hgo.
    + destruct (isUnauthorized e).
      * exists 1%nat. reflexivity.
      * exists (S k). apply Hgo.
Qed.

(** X6: [matchAllTracks] writes nothing to the console, whatever the
    lookups answer (a failed lookup is not logged); the only error it throws
    is the [AuthenticationError] of a refused credential; and its requests
    are the lookups of the first songs, one each, in the order of the
    ranking. *)
Theorem matchAllTracks_quiet artistName accessToken songs w s :
  let run := matchAllTracks songs artistName accessToken w s in
  console (fst run) = console s /\
  (forall e,
      result run = Throw e ->
      e = AuthenticationError (str "Invalid or expired access token")
            [("statusCode"%string, VNumber 401)]) /\
  exists k,
    issued run
    = calls s ++ map (fun x => searchCall artistName accessToken (name x))
                   (firstn k songs).
Proof.
  intros run. subst run.
  destruct (matchAllTracks_console artistName accessToken songs w s)
    as [Hcon Hthrow].
  split; [exact Hcon|]. split; [exact Hthrow|].
  apply matchAllTracks_lookups.
Qed.

(** ** The builder *)

Ltac closeCase :=
  repeat split; intros; try discriminate;
  try (unfold isUnauthorized in *; simpl in *; congruence);
  try reflexivity.

(** X7: how the rejection of a request of the builder comes out of
    [createPlaylist], through the handler of the request and the one of the
    build: status 401 as the [AuthenticationError]; any other axios error as
    the [ExternalAPIError] of the service [Spotify] with the status; an
    [AuthenticationError] or [ExternalAPIError] as itself; any other [Error]
    as a plain [Error] that quotes its message; anything else as the error
    without a cause. *)
Theorem createPlaylist_failure p w s e :
  let run := createPlaylist p w s in
  builderRejects p w s e ->
  (isUnauthorized e = true ->
   result run
   = Throw (AuthenticationError (str "Invalid or expired access token")
              [("statusCode"%string, VNumber 401)])) /\
  (isAxiosError e = true -> isUnauthorized e = false ->
   result run
   = Throw (ExternalAPIError
              (str "Spotify API is unavailable: " ++ errorMessage e)
              (str "Spotify")
              [("statusCode"%string, optNumber (responseStatus e))])) /\
  (instanceofAuthenticationError e || instanceofExternalAPIError e = true ->
   result run = Throw e) /\
  (isAxiosError e = false ->
   instanceofAuthenticationError e || instanceofExternalAPIError e = false ->
   instanceofError e = true ->
   result run
   = Throw (OtherError (str "Failed to create playlist: "
                        ++ errorMessage e))) /\
  (instanceofError e = false ->
   result run
   = Throw (OtherError (str "Failed to create playlist with unknown error"))).
Proof.
  intros run Hrej. subst run.
  assert (Hcases :
            (isUnauthorized e = true /\ exists m, e = AxiosError m (Some 401))
            \/ (isUnauthorized e = false /\ isAxiosError e = true) \/
            isAxiosError e = false).
  { destruct e as [| | | |m [st|]| |]; auto.
    unfold isUnauthorized. simpl. destruct (Z.eqb_spec st 401) as [->|].
    - left. split; eauto.
    - auto. }
  unfold builderRejects, meCall, playlistCall, tracksCall in Hrej.
  cbv zeta in Hrej. unfold result. stepBuilder.
  destruct Hrej as [H1|(user & H1 & [H2|(pl & H2 & Hne & H3)])].
  - rewrite H1. cbn [calls snd].
    destruct Hcases as [[Hun (m & ->)]|[[Hun Hax]|Hax]].
    + closeCase.
    + destruct e as [| | | |m [st|]| |]; try discriminate Hax;
        unfold isUnauthorized in Hun; simpl in Hun; simpl;
        try rewrite Hun; closeCase.
    + destruct e; try discriminate Hax; simpl; closeCase.
  - rewrite H1. cbn [calls snd]. rewrite H2. cbn [calls snd].
    destruct Hcases as [[Hun (m & ->)]|[[Hun Hax]|Hax]].
    + closeCase.
    + destruct e as [| | | |m [st|]| |]; try discriminate Hax;
        unfold isUnauthorized in Hun; simpl in Hun; simpl;
        try rewrite Hun; closeCase.
    + destruct e; try discriminate Hax; simpl; closeCase.
  - rewrite H1. cbn [calls snd]. rewrite H2. cbn [calls snd].
    destruct (pcp_trackUris p) as [|u us]; [congruence|].
    change (List.length (u :: us) =? 0)%nat with false.
    cbv iota beta. cbn [calls snd].
    rewrite <- app_assoc. simpl app. rewrite H3. cbn [calls snd].
    destruct Hcases as [[Hun (m & ->)]|[[Hun Hax]|Hax]].
    + closeCase.
    + destruct e as [| | | |m [st|]| |]; try discriminate Hax;
        unfold isUnauthorized in Hun; simpl in Hun; simpl;
        try rewrite Hun; closeCase.
    + destruct e; try discriminate Hax; simpl; closeCase.
Qed.

(** A build issues at most three requests, all of the builder. *)
Lemma createPlaylist_requests p w s :
  exists new,
    issued (createPlaylist p w s) = calls s ++ new /\
    (List.length new <= 3)%nat /\
    Forall (fun c => isPlaylistCall c = true) new.
Proof.
  rewrite createPlaylist_issued. cbv zeta.
  eexists. split; [reflexivity|].
  destruct (http w (calls s) _) as [user|e];
    [|split; [simpl; lia | repeat constructor]].
  destruct (http w _ _) as [pl|e];
    [|split; [simpl; lia | repeat constructor]].
  destruct (pcp_trackUris p); split; simpl; try lia; repeat constructor.
Qed.

(** X8: a build stops at its first rejected request: when the identity
    request is rejected nothing else is issued, so no playlist is created;
    when the creation request is rejected no population request follows.  A
    build never issues more than these three requests. *)
Theorem createPlaylist_stops p w s :
  let run := createPlaylist p w s in
  let token := pcp_accessToken p in
  let c1 := GetMe meUrl (bearer token) in
  let c2 := fun user : SpotifyUserResponse =>
    PostPlaylist (playlistsUrl (user_id user))
      (playlistName (pcp_artistName p) (pcp_year p)) false
      (playlistDescription (pcp_artistName p) (pcp_year p)) (bearer token) in
  (forall e, http w (calls s) c1 = Rejected e ->
             issued run = calls s ++ [c1]) /\
  (forall user e,
      http w (calls s) c1 = Resolved user ->
      http w (calls s ++ [c1]) (c2 user) = Rejected e ->
      issued run = calls s ++ [c1; c2 user]) /\
  exists new,
    issued run = calls s ++ new /\ (List.length new <= 3)%nat /\
    Forall (fun c => isPlaylistCall c = true) new.
Proof.
  intros run token c1 c2.
  pose proof (createPlaylist_issued p w s) as Hiss. cbv zeta in Hiss.
  fold token run in Hiss. change (meCall token) with c1 in Hiss.
  split; [|split].
  - intros e H1. now rewrite H1 in Hiss.
  - intros user e H1 H2. rewrite H1 in Hiss.
    change (playlistCall (user_id user) (pcp_artistName p) (pcp_year p)
              token) with (c2 user) in Hiss.
    now rewrite H2 in Hiss.
  - apply createPlaylist_requests.
Qed.

(** X9: a build that returns has logged nothing; a build that throws has
    logged the error it throws, last. *)
Theorem createPlaylist_logs p w s :
  let run := createPlaylist p w s in
  match result run with
  | Ok _ => console (fst run) = console s
  | Throw e =>
      exists earlier ctx,
        console (fst run)
        = earlier ++ [{| errorType := errorName e;
                         logMessage := errorMessage e; context := ctx |}]
  end.
Proof.
  cbv zeta. unfold result. stepBuilder.
  destruct (http w (calls s) (GetMe _ _)) as [user|e]; cbn [calls fst snd].
  - destruct (http w (calls s ++ [_]) (PostPlaylist _ _ _ _ _)) as [pl|e];
      cbn [calls fst snd].
    + destruct (pcp_trackUris p) as [|u us]; simpl.
      * reflexivity.
      * destruct (http w _ (PostTracks _ _ _)) as [[]|e]; simpl.
        -- reflexivity.
        -- destruct e as [| | | |m [st|]| |]; simpl;
             try destruct (st =? 401); simpl; eexists _, _; reflexivity.
    + destruct e as [| | | |m [st|]| |]; simpl;
        try destruct (st =? 401); simpl; eexists _, _; reflexivity.
  - destruct e as [| | | |m [st|]| |]; simpl;
      try destruct (st =? 401); simpl; eexists _, _; reflexivity.
Qed.

Ltac closeThrow :=
  first [ now left | now (right; left)
        | right; right; eexists; reflexivity ].

(** What [createPlaylist] throws: an [AuthenticationError], an
    [ExternalAPIError], or the plain [Error] of the build. *)
Lemma createPlaylist_throws p w s e :
  result (createPlaylist p w s) = Throw e ->
  instanceofAuthenticationError e = true \/
  instanceofExternalAPIError e = true \/
  exists m, e = OtherError (str "Failed to create playlist" ++ m).
Proof.
  unfold result. stepBuilder.
  destruct (http w (calls s) (GetMe _ _)) as [user|e0]; cbn [calls fst snd].
  - destruct (http w (calls s ++ [_]) (PostPlaylist _ _ _ _ _)) as [pl|e0];
      cbn [calls fst snd].
    + destruct (pcp_trackUris p) as [|u us]; simpl; [discriminate|].
      destruct (http w _ (PostTracks _ _ _)) as [[]|e0]; simpl;
        [discriminate|].
      destruct e0 as [| | | |m [st|]| |]; simpl;
        try destruct (st =? 401); simpl; intros [= <-]; closeThrow.
    + destruct e0 as [| | | |m [st|]| |]; simpl;
        try destruct (st =? 401); simpl; intros [= <-]; closeThrow.
  - destruct e0 as [| | | |m [st|]| |]; simpl;
      try destruct (st =? 401); simpl; intros [= <-]; closeThrow.
Qed.

Lemma createPlaylist_Ok_console p w s res :
  result (createPlaylist p w s) = Ok res ->
  console (fst (createPlaylist p w s)) = console s.
Proof.
  unfold result. stepBuilder.
  destruct (http w (calls s) (GetMe _ _)) as [user|e]; cbn [calls fst snd].
  - destruct (http w (calls s ++ [_]) (PostPlaylist _ _ _ _ _)) as [pl|e];
      cbn [calls fst snd].
    + destruct (pcp_trackUris p) as [|u us]; simpl; [reflexivity|].
      destruct (http w _ (PostTracks _ _ _)) as [[]|e]; simpl;
        [reflexivity|].
      destruct e as [| | | |m [st|]| |]; simpl;
        try destruct (st =? 401); simpl; discriminate.
    + destruct e as [| | | |m [st|]| |]; simpl;
        try destruct (st =? 401); simpl; discriminate.
  - destruct e as [| | | |m [st|]| |]; simpl;
      try destruct (st =? 401); simpl; discriminate.
Qed.

(** ** The orchestrator *)

(** X10: a request whose three fields are given is refused with a
    [ValidationError] for [SETLISTFM_API_KEY] when the key of the setlist
    service is missing or empty in the environment, before any request is
    issued and without a log entry. *)
Theorem handleCreatePlaylist_missing_key request w s :
  missingOrBlank (accessToken request) = false ->
  missingOrBlank (artistId request) = false ->
  missingOrBlank (artistName request) = false ->
  SETLISTFM_API_KEY w = None \/ SETLISTFM_API_KEY w = Some [] ->
  handleCreatePlaylist request w s
  = (s, Throw (ValidationError (str "setlist.fm API key is not configured")
                 [("field"%string, VString (str "SETLISTFM_API_KEY"))])).
Proof.
  intros Ht Hi Hn Hkey. unfold handleCreatePlaylist.
  rewrite Ht, Hi, Hn. cbv zeta. unfold tryCatch, bind, envApiKey.
  destruct Hkey as [->| ->]; reflexivity.
Qed.

Lemma rethrown_Error e : instanceofError e = true -> rethrown e = e.
Proof. intros H. unfold rethrown. now rewrite H. Qed.

Lemma getAverageSetlist_throws_Error params apiKey w s e :
  result (getAverageSetlist params apiKey w s) = Throw e ->
  instanceofExternalAPIError e || instanceofDataNotFoundError e = true.
Proof.
  destruct params as [artist y]. intros H.
  pose proof (getAverageSetlist_outcome w s artist y apiKey) as Hout.
  cbv zeta in Hout. now rewrite H in Hout.
Qed.

(** In a run for an accepted request, an error is the error of the stage
    that threw it, unchanged. *)
Lemma handleCreatePlaylist_propagates request w s e :
  let artist := present (artistName request) in
  let token := present (accessToken request) in
  let aggregate :=
    getAverageSetlist {| asp_artistId := present (artistId request);
                         asp_year := req_year request |}
      (configuredKey w) w s in
  accepted w request ->
  result (handleCreatePlaylist request w s) = Throw e ->
  result aggregate = Throw e \/
  exists songs s1,
    aggregate = (s1, Ok songs) /\
    (result (matchAllTracks songs artist token w s1) = Throw e \/
     exists trackResults s2,
       matchAllTracks songs artist token w s1 = (s2, Ok trackResults) /\
       result (createPlaylist
                 {| pcp_artistName := artist;
                    pcp_year := targetYearOf w s2 (req_year request);
                    pcp_trackUris := collectUris trackResults;
                    pcp_accessToken := token |} w s2) = Throw e).
Proof.
  intros artist token aggregate Hacc Hthrow. subst aggregate.
  rewrite (handleCreatePlaylist_stages _ _ _ Hacc) in Hthrow.
  cbv zeta in Hthrow. fold artist token in Hthrow.
  destruct (getAverageSetlist _ _ w s) as [s1 [songs|e1]] eqn:E1.
  - right. exists songs, s1. split; [reflexivity|].
    destruct (matchAllTracks songs artist token w s1)
      as [s2 [results|e2]] eqn:E2.
    + right. exists results, s2. split; [reflexivity|].
      match type of Hthrow with
      | context [createPlaylist ?p w s2] =>
          pose proof (createPlaylist_throws p w s2) as Hcls;
          destruct (createPlaylist p w s2) as [s3 [r|e3]]
      end; [discriminate|].
      unfold result in *. simpl in *. injection Hthrow as <-.
      rewrite rethrown_Error; [reflexivity|].
      destruct (Hcls e3 eq_refl) as [H|[H|(m & ->)]];
        [destruct e3; now try discriminate .. | reflexivity].
    + left. unfold result in *. simpl in *. injection Hthrow as <-.
      destruct (matchAllTracks_console artist token songs w s1)
        as [_ Hauth].
      rewrite E2 in Hauth. rewrite (Hauth e2 eq_refl). reflexivity.
  - left. unfold result in *. simpl in *. injection Hthrow as <-.
    rewrite rethrown_Error; [reflexivity|].
    pose proof (getAverageSetlist_throws_Error
                  {| asp_artistId := present (artistId request);
                     asp_year := req_year request |}
                  (configuredKey w) w s e1) as Hcls.
    rewrite E1 in Hcls. specialize (Hcls eq_refl).
    destruct e1; now try discriminate.
Qed.

(** The kinds of error [handleCreatePlaylist] throws. *)
Lemma handleCreatePlaylist_kinds request w s e :
  result (handleCreatePlaylist request w s) = Throw e ->
  (exists m d, e = ValidationError m d) \/
  instanceofExternalAPIError e = true \/
  instanceofDataNotFoundError e = true \/
  instanceofAuthenticationError e = true \/
  exists m, e = OtherError (str "Failed to create playlist" ++ m).
Proof.
  intros Hthrow.
  unfold result in Hthrow.
  destruct (missingOrBlank (accessToken request)) eqn:Et.
  { unfold handleCreatePlaylist in Hthrow. rewrite Et in Hthrow.
    injection Hthrow as <-. left. unfold fieldError. eauto. }
  destruct (missingOrBlank (artistId request)) eqn:Ei.
  { unfold handleCreatePlaylist in Hthrow. rewrite Et, Ei in Hthrow.
    injection Hthrow as <-. left. unfold fieldError. eauto. }
  destruct (missingOrBlank (artistName request)) eqn:En.
  { unfold handleCreatePlaylist in Hthrow. rewrite Et, Ei, En in Hthrow.
    injection Hthrow as <-. left. unfold fieldError. eauto. }
  destruct (SETLISTFM_API_KEY w) as [key|] eqn:Ek.
  2:{ unfold handleCreatePlaylist in Hthrow.
      rewrite Et, Ei, En in Hthrow. cbv zeta in Hthrow.
      unfold tryCatch, bind, envApiKey in Hthrow. rewrite Ek in Hthrow.
      injection Hthrow as <-. left. unfold fieldError. eauto. }
  destruct key as [|c key].
  { unfold handleCreatePlaylist in Hthrow.
    rewrite Et, Ei, En in Hthrow. cbv zeta in Hthrow.
    unfold tryCatch, bind, envApiKey in Hthrow. rewrite Ek in Hthrow.
    injection Hthrow as <-. left. unfold fieldError. eauto. }
  assert (Hacc : accepted w request).
  { repeat split; try assumption. now exists (c :: key). }
  destruct (handleCreatePlaylist_propagates request w s e Hacc Hthrow)
    as [H|(songs & s1 & _ & [H|(results & s2 & _ & H)])].
  - apply getAverageSetlist_throws_Error in H.
    apply orb_true_iff in H. tauto.
  - destruct (matchAllTracks_console (present (artistName request))
                (present (accessToken request)) songs w s1) as [_ Hauth].
    rewrite (Hauth e H). auto.
  - apply createPlaylist_throws in H. tauto.
Qed.

(** X11: the errors of [handleCreatePlaylist] are a [ValidationError], an
    [ExternalAPIError], a [DataNotFoundError], an [AuthenticationError] or
    the plain [Error] of the builder; the error of its last [catch], for a
    thrown value that is no [Error], never comes out; and for an accepted
    request the error is the one of the stage that threw it, unchanged: the
    aggregator's, or the resolver's after the aggregator returned, or the
    builder's after both returned. *)
Theorem handleCreatePlaylist_throws request w s e :
  let artist := present (artistName request) in
  let token := present (accessToken request) in
  let aggregate :=
    getAverageSetlist {| asp_artistId := present (artistId request);
                         asp_year := req_year request |}
      (configuredKey w) w s in
  result (handleCreatePlaylist request w s) = Throw e ->
  ((exists m d, e = ValidationError m d) \/
   instanceofExternalAPIError e = true \/
   instanceofDataNotFoundError e = true \/
   instanceofAuthenticationError e = true \/
   exists m, e = OtherError (str "Failed to create playlist" ++ m)) /\
  e <> OtherError (str "An unexpected error occurred") /\
  (accepted w request ->
   result aggregate = Throw e \/
   exists songs s1,
     aggregate = (s1, Ok songs) /\
     (result (matchAllTracks songs artist token w s1) = Throw e \/
      exists trackResults s2,
        matchAllTracks songs artist token w s1 = (s2, Ok trackResults) /\
        result (createPlaylist
                  {| pcp_artistName := artist;
                     pcp_year := targetYearOf w s2 (req_year request);
                     pcp_trackUris := collectUris trackResults;
                     pcp_accessToken := token |} w s2) = Throw e)).
Proof.
  intros artist token aggregate Hthrow.
  pose proof (handleCreatePlaylist_kinds _ _ _ _ Hthrow) as Hkinds.
  split; [exact Hkinds|]. split.
  - intros ->.
    destruct Hkinds as [(m & d & H)|[H|[H|[H|(m & H)]]]]; discriminate.
  - intros Hacc.
    exact (handleCreatePlaylist_propagates request w s e Hacc Hthrow).
Qed.

(** The aggregator issues at most two requests, both to the setlist
    service. *)
Lemma getAverageSetlist_fetches params apiKey w s :
  exists fetches,
    issued (getAverageSetlist params apiKey w s) = calls s ++ fetches /\
    (List.length fetches <= 2)%nat /\
    Forall (fun c => isSetlistCall c = true) fetches.
Proof.
  destruct params as [artist y].
  rewrite getAverageSetlist_issued. cbv zeta.
  eexists. split; [reflexivity|].
  destruct (http w (calls s) _) as [first|e];
    [|split; [simpl; lia | repeat constructor]].
  destruct (distinctSongs first =? 0)%nat;
    split; simpl; try lia; repeat constructor.
Qed.

(** X12: the requests of a run of [handleCreatePlaylist] come in the order
    of the stages, whatever happens: at most two requests to the setlist
    service, then the lookups, then at most three requests of the builder;
    no stage is entered again. *)
Theorem handleCreatePlaylist_request_order request w s :
  exists fetches searches build,
    issued (handleCreatePlaylist request w s)
    = calls s ++ fetches ++ searches ++ build /\
    Forall (fun c => isSetlistCall c = true) fetches /\
    (List.length fetches <= 2)%nat /\
    Forall (fun c => isSearchCall c = true) searches /\
    Forall (fun c => isPlaylistCall c = true) build /\
    (List.length build <= 3)%nat.
Proof.
  assert (Hnone : forall r : State * Result PlaylistCreationResult,
             issued r = calls s ->
             exists fetches searches build,
               issued r = calls s ++ fetches ++ searches ++ build /\
               Forall (fun c => isSetlistCall c = true) fetches /\
               (List.length fetches <= 2)%nat /\
               Forall (fun c => isSearchCall c = true) searches /\
               Forall (fun c => isPlaylistCall c = true) build /\
               (List.length build <= 3)%nat).
  { intros r Hr. exists [], [], []. simpl. rewrite app_nil_r.
    repeat split; auto; lia. }
  destruct (missingOrBlank (accessToken request)) eqn:Et.
  { apply Hnone. unfold handleCreatePlaylist. now rewrite Et. }
  destruct (missingOrBlank (artistId request)) eqn:Ei.
  { apply Hnone. unfold handleCreatePlaylist. now rewrite Et, Ei. }
  destruct (missingOrBlank (artistName request)) eqn:En.
  { apply Hnone. unfold handleCreatePlaylist. now rewrite Et, Ei, En. }
  destruct (SETLISTFM_API_KEY w) as [key|] eqn:Ek.
  2:{ apply Hnone. unfold handleCreatePlaylist. rewrite Et, Ei, En.
      cbv zeta. unfold tryCatch, bind, envApiKey. now rewrite Ek. }
  destruct (falsy key) eqn:Ef.
  { apply Hnone. unfold handleCreatePlaylist. rewrite Et, Ei, En.
    cbv zeta. unfold tryCatch, bind, envApiKey. now rewrite Ek, Ef. }
  assert (Hacc : accepted w request).
  { repeat split; try assumption. now exists key. }
  rewrite (handleCreatePlaylist_stages _ _ _ Hacc). cbv zeta.
  destruct (getAverageSetlist_fetches
              {| asp_artistId := present (artistId request);
                 asp_year := req_year request |} (configuredKey w) w s)
    as (fetches & Hiss1 & Hlen1 & Hfetches).
  destruct (getAverageSetlist _ _ w s) as [s1 [songs|e]];
    unfold issued in Hiss1 |- *; simpl in Hiss1.
  2:{ exists fetches, [], []. simpl. rewrite app_nil_r.
      repeat split; auto; lia. }
  destruct (matchAllTracks_lookups (present (artistName request))
              (present (accessToken request)) songs w s1) as (k & Hiss2).
  set (searches := map (fun x => searchCall (present (artistName request))
                                   (present (accessToken request)) (name x))
                     (firstn k songs)) in *.
  assert (Hsearches : Forall (fun c => isSearchCall c = true) searches).
  { apply Forall_forall. intros c Hc. subst searches.
    apply in_map_iff in Hc as (x & <- & _). reflexivity. }
  destruct (matchAllTracks songs _ _ w s1) as [s2 [results|e]];
    unfold issued in Hiss2; simpl in Hiss2.
  2:{ exists fetches, searches, []. simpl. rewrite app_nil_r.
      split; [now rewrite Hiss2, Hiss1, <- app_assoc|].
      repeat split; auto; lia. }
  match goal with
  | |- context [createPlaylist ?p w s2] =>
      destruct (createPlaylist_requests p w s2)
        as (build & Hiss3 & Hlen3 & Hbuild);
      assert (Hsame : calls (fst (match createPlaylist p w s2 with
                                  | (s3, Ok r) => (s3, Ok r)
                                  | (s3, Throw e) => (s3, Throw (rethrown e))
                                  end))
                      = calls s2 ++ build)
        by (unfold issued in Hiss3;
            destruct (createPlaylist p w s2) as [s3 [r|e]]; exact Hiss3)
  end.
  exists fetches, searches, build. split.
  - rewrite Hsame, Hiss2, Hiss1, <- !app_assoc. reflexivity.
  - repeat split; auto.
Qed.

Lemma collectUris_tracks results :
  Forall (fun r => found r =
                   match trackUri r with Some _ => true | None => false end)
    results ->
  map Some (collectUris results) = map trackUri (filter found results).
Proof.
  unfold collectUris. rewrite map_map.
  induction 1 as [|r rs Hr Hrs IH]; simpl; [reflexivity|].
  rewrite Hr. destruct (trackUri r) eqn:E; simpl; now rewrite ?E, IH.
Qed.

(** X13: in a run that returns, the tracks sent to the playlist are the
    tracks of the results that were found, in the order of the ranking: any
    population request of the run carries exactly them, and there is one when
    a result was found. *)
Theorem handleCreatePlaylist_tracks_in_order request w s res :
  result (handleCreatePlaylist request w s) = Ok res ->
  exists songs s1 trackResults s2,
    getAverageSetlist {| asp_artistId := present (artistId request);
                         asp_year := req_year request |}
      (configuredKey w) w s = (s1, Ok songs) /\
    matchAllTracks songs (present (artistName request))
      (present (accessToken request)) w s1 = (s2, Ok trackResults) /\
    map songName trackResults = map name songs /\
    exists build,
      issued (handleCreatePlaylist request w s) = calls s2 ++ build /\
      (forall url uris authorization,
          In (PostTracks url uris authorization) build ->
          map Some uris = map trackUri (filter found trackResults)) /\
      (filter found trackResults <> [] ->
       exists url uris authorization,
         In (PostTracks url uris authorization) build).
Proof.
  intros Hok.
  pose proof (handleCreatePlaylist_Ok_accepted _ _ _ _ Hok) as Hacc.
  rewrite (handleCreatePlaylist_stages _ _ _ Hacc) in Hok |- *.
  cbv zeta in Hok |- *.
  destruct (getAverageSetlist _ _ w s) as [s1 [songs|e]]; [|discriminate].
  destruct (matchAllTracks songs _ _ w s1) as [s2 [results|e]] eqn:Em;
    [|discriminate].
  exists songs, s1, results, s2. split; [reflexivity|]. split; [exact Em|].
  assert (Hr : result (matchAllTracks songs
                         (present (artistName request))
                         (present (accessToken request)) w s1)
               = Ok results) by now rewrite Em.
  apply matchAllTracks_Ok in Hr.
  destruct (matchAllTracks_authorized _ _ _ _ _ Hr)
    as (results' & Hres & _ & Hnames & Hwf).
  rewrite Em in Hres. unfold result in Hres. simpl in Hres.
  injection Hres as <-. split; [exact Hnames|].
  pose proof (collectUris_tracks _ Hwf) as Htracks.
  set (p := {| pcp_artistName := present (artistName request);
               pcp_year := targetYearOf w s2 (req_year request);
               pcp_trackUris := collectUris results;
               pcp_accessToken := present (accessToken request) |}) in *.
  pose proof (createPlaylist_issued p w s2) as Hiss3.
  pose proof (createPlaylist_result p w s2 res) as Hres.
  cbv zeta in Hiss3, Hres.
  destruct (createPlaylist p w s2) as [s3 [r|e]]; [|discriminate].
  unfold result in Hok, Hres. simpl in Hok, Hres. injection Hok as ->.
  unfold p in Hiss3, Hres.
  cbn [pcp_artistName pcp_year pcp_trackUris pcp_accessToken] in Hiss3, Hres.
  destruct (proj1 Hres eq_refl) as (user & pl & H1 & H2 & _ & _).
  rewrite H1, H2 in Hiss3. unfold issued in Hiss3 |- *. simpl in Hiss3 |- *.
  eexists. split; [exact Hiss3|]. split.
  - intros url uris authorization [Hin|[Hin|Hin]]; try discriminate.
    destruct (collectUris results) as [|u us] eqn:Eu; [contradiction|].
    destruct Hin as [Hin|[]]. unfold tracksCall in Hin.
    injection Hin as _ <- _. exact Htracks.
  - intros Hfound.
    destruct (collectUris results) as [|u us] eqn:Eu.
    + simpl in Htracks. destruct (filter found results);
        [contradiction | discriminate].
    + eexists _, _, _. right; right; left. reflexivity.
Qed.

(** X14: a run of [handleCreatePlaylist] that returns has written nothing
    to the console: only failures are logged. *)
Theorem handleCreatePlaylist_success_silent request w s res :
  result (handleCreatePlaylist request w s) = Ok res ->
  console (fst (handleCreatePlaylist request w s)) = console s.
Proof.
  intros Hok.
  pose proof (handleCreatePlaylist_Ok_accepted _ _ _ _ Hok) as Hacc.
  rewrite (handleCreatePlaylist_stages _ _ _ Hacc) in Hok |- *.
  cbv zeta in Hok |- *.
  pose proof (getAverageSetlist_outcome w s (present (artistId request))
                (req_year request) (configuredKey w)) as H1.
  cbv zeta in H1.
  destruct (getAverageSetlist _ _ w s) as [s1 [songs|e]]; [|discriminate].
  unfold result in H1. simpl in H1. destruct H1 as (_ & _ & H1).
  destruct (matchAllTracks_console (present (artistName request))
              (present (accessToken request)) songs w s1) as [H2 _].
  destruct (matchAllTracks songs _ _ w s1) as [s2 [results|e]];
    [|discriminate].
  simpl in H2.
  match type of Hok with
  | context [createPlaylist ?p w s2] =>
      pose proof (createPlaylist_Ok_console p w s2) as H3;
      destruct (createPlaylist p w s2) as [s3 [r|e]]
  end; [|discriminate].
  unfold result in H3. simpl in H3 |- *.
  rewrite (H3 r eq_refl), H2, H1. reflexivity.
Qed.

(** ** The answer to a failure *)

Lemma objectSet_fresh o k v :
  ~ In k (map fst o) -> objectSet o k v = o ++ [(k, v)].
Proof.
  induction o as [|[k' v'] o IH]; simpl; intros Hk; [reflexivity|].
  destruct (String.eqb_spec k' k) as [->|Hne]; [tauto|].
  rewrite IH; [reflexivity | tauto].
Qed.

(** Spreading an object with other keys after an object appends it. *)
Lemma objectSpread_fresh more : forall base,
  NoDup (map fst more) ->
  (forall k, In k (map fst more) -> ~ In k (map fst base)) ->
  objectSpread base more = base ++ more.
Proof.
  unfold objectSpread.
  induction more as [|[k v] more IH]; intros base Hnd Hdis; simpl.
  - now rewrite app_nil_r.
  - inversion Hnd as [|? ? Hk Hnd']; subst.
    rewrite objectSet_fresh by (apply Hdis; now left).
    rewrite IH; [now rewrite <- app_assoc | exact Hnd'|].
    intros k' Hk' Hin. rewrite map_app, in_app_iff in Hin. simpl in Hin.
    destruct Hin as [Hin|[<-|[]]]; [|contradiction].
    apply (Hdis k'); [now right | exact Hin].
Qed.

(** X15: how a failure of [handleCreatePlaylist] is answered by
    [getStatusCode] and [formatErrorResponse]: 400 and [VALIDATION] for a
    [ValidationError]; 502 and [EXTERNALAPI] for an [ExternalAPIError], with
    the name of the service put before its details; 404 and [DATANOTFOUND];
    401 and [AUTHENTICATION]; the only other answer is 500 with an empty
    code and no details, for the plain [Error] of the builder. *)
Theorem handleCreatePlaylist_answer request w s e :
  result (handleCreatePlaylist request w s) = Throw e ->
  let body := error (formatErrorResponse e) in
  eb_message body = errorMessage e /\
  ((getStatusCode e = 400 /\ eb_code body = str "VALIDATION" /\
    exists m d, e = ValidationError m d /\ eb_details body = Some d) \/
   (getStatusCode e = 502 /\ eb_code body = str "EXTERNALAPI" /\
    exists m service d,
      e = ExternalAPIError m service d /\
      (NoDup (map fst d) -> ~ In "serviceName"%string (map fst d) ->
       eb_details body
       = Some (("serviceName"%string, VString service) :: d))) \/
   (getStatusCode e = 404 /\ eb_code body = str "DATANOTFOUND" /\
    exists m d, e = DataNotFoundError m d /\ eb_details body = Some d) \/
   (getStatusCode e = 401 /\ eb_code body = str "AUTHENTICATION" /\
    exists m d, e = AuthenticationError m d /\ eb_details body = Some d) \/
   (getStatusCode e = 500 /\ eb_code body = [] /\ eb_details body = None /\
    exists m, e = OtherError (str "Failed to create playlist" ++ m))).
Proof.
  intros Hthrow body. subst body.
  split; [reflexivity|].
  pose proof (handleCreatePlaylist_kinds _ _ _ _ Hthrow) as Hkinds.
  destruct Hkinds as [(m & d & ->)|[H|[H|[H|(m & ->)]]]].
  - left. repeat split; eauto.
  - right; left. destruct e as [|m service d| | | | |]; try discriminate.
    split; [reflexivity|]. split; [reflexivity|].
    exists m, service, d. split; [reflexivity|].
    intros Hnd Hfresh. simpl. f_equal.
    apply (objectSpread_fresh d [("serviceName"%string, VString service)]);
      [exact Hnd|].
    intros k Hk [<-|[]]. contradiction.
  - right; right; left. destruct e; try discriminate.
    repeat split; eauto.
  - right; right; right; left. destruct e; try discriminate.
    repeat split; eauto.
  - right; right; right; right. repeat split; eauto.
Qed.

(** ** The environment *)

Lemma filter_subsequence {A : Type} (f : A -> bool) (l : list A) :
  subsequence (filter f l) l.
Proof.
  induction l as [|x l IH]; simpl; [constructor|].
  destruct (f x); now constructor.
Qed.

(** X16: [validateEnvironment] returns exactly when none of the four
    variables is missing or blank, and then with the values of the
    environment; otherwise it throws a plain [Error] whose message lists the
    variables that are missing or blank and only them, each once, in the
    order [SPOTIFY_CLIENT_ID], [SPOTIFY_CLIENT_SECRET],
    [SPOTIFY_REDIRECT_URI], [SETLISTFM_API_KEY]. *)
Theorem validateEnvironment_outcome env :
  match validateEnvironment env with
  | Ok cfg =>
      (forall v, In v requiredVars -> ~ blank (env v)) /\
      env "SPOTIFY_CLIENT_ID"%string = Some (env_SPOTIFY_CLIENT_ID cfg) /\
      env "SPOTIFY_CLIENT_SECRET"%string
      = Some (env_SPOTIFY_CLIENT_SECRET cfg) /\
      env "SPOTIFY_REDIRECT_URI"%string = Some (env_SPOTIFY_REDIRECT_URI cfg)
      /\ env "SETLISTFM_API_KEY"%string = Some (env_SETLISTFM_API_KEY cfg)
  | Throw e =>
      exists missing,
        missing <> [] /\
        (forall v, In v missing <-> In v requiredVars /\ blank (env v)) /\
        NoDup missing /\
        subsequence missing
          ["SPOTIFY_CLIENT_ID"; "SPOTIFY_CLIENT_SECRET";
           "SPOTIFY_REDIRECT_URI"; "SETLISTFM_API_KEY"]%string /\
        e = OtherError
              (str "Missing required environment variables: "
               ++ join (str ", ") (map str missing) ++ [10%N]
               ++ str "Please ensure all required variables are set in your .env file or environment."
               ++ [10%N] ++ str "See .env.example for reference.")
  end.
Proof.
  unfold validateEnvironment. cbv zeta.
  set (missing := filter (fun v => missingOrBlank (env v)) requiredVars).
  assert (Hmissing : forall v,
             In v missing <-> In v requiredVars /\ blank (env v)).
  { intros v. unfold missing. rewrite filter_In.
    pose proof (missingOrBlank_blank (env v)). tauto. }
  assert (Hnodup : NoDup missing).
  { apply NoDup_filter. unfold requiredVars.
    repeat constructor; simpl; intuition discriminate. }
  assert (Hsub : subsequence missing requiredVars)
    by apply filter_subsequence.
  destruct missing as [|v0 missing'] eqn:E; simpl Nat.ltb; cbv iota.
  - assert (Hset : forall v, In v requiredVars ->
                             ~ blank (env v) /\ env v = Some (present (env v))).
    { intros v Hv. assert (Hnb : ~ blank (env v)).
      { intros Hb. apply (proj2 (Hmissing v)). now split. }
      split; [exact Hnb|].
      destruct (env v); [reflexivity | now elim Hnb]. }
    split; [intros v Hv; now apply Hset|].
    repeat split; apply Hset; simpl; auto.
  - exists (v0 :: missing'). split; [discriminate|]. split; [exact Hmissing|].
    split; [exact Hnodup|]. split; [exact Hsub | reflexivity].
Qed.

(** A [ValidationError] of [handleCreatePlaylist] comes from one of its own
    checks. *)
Lemma handleCreatePlaylist_validation_inv request w s m d :
  result (handleCreatePlaylist request w s) = Throw (ValidationError m d) ->
  (missingOrBlank (accessToken request) = true /\
   d = [("field"%string, VString (str "accessToken"))]) \/
  (missingOrBlank (artistId request) = true /\
   d = [("field"%string, VString (str "artistId"))]) \/
  (missingOrBlank (artistName request) = true /\
   d = [("field"%string, VString (str "artistName"))]) \/
  ((SETLISTFM_API_KEY w = None \/ SETLISTFM_API_KEY w = Some []) /\
   d = [("field"%string, VString (str "SETLISTFM_API_KEY"))]).
Proof.
  intros Hthrow. unfold result in Hthrow.
  destruct (missingOrBlank (accessToken request)) eqn:Et.
  { unfold handleCreatePlaylist in Hthrow. rewrite Et in Hthrow.
    injection Hthrow as _ <-. auto. }
  destruct (missingOrBlank (artistId request)) eqn:Ei.
  { unfold handleCreatePlaylist in Hthrow. rewrite Et, Ei in Hthrow.
    injection Hthrow as _ <-. auto. }
  destruct (missingOrBlank (artistName request)) eqn:En.
  { unfold handleCreatePlaylist in Hthrow. rewrite Et, Ei, En in Hthrow.
    injection Hthrow as _ <-. auto. }
  destruct (SETLISTFM_API_KEY w) as [key|] eqn:Ek.
  2:{ unfold handleCreatePlaylist in Hthrow.
      rewrite Et, Ei, En in Hthrow. cbv zeta in Hthrow.
      unfold tryCatch, bind, envApiKey in Hthrow. rewrite Ek in Hthrow.
      injection Hthrow as _ <-. right; right; right. auto. }
  destruct key as [|c key].
  { unfold handleCreatePlaylist in Hthrow.
    rewrite Et, Ei, En in Hthrow. cbv zeta in Hthrow.
    unfold tryCatch, bind, envApiKey in Hthrow. rewrite Ek in Hthrow.
    injection Hthrow as _ <-. right; right; right. auto. }
  exfalso.
  assert (Hacc : accepted w request).
  { repeat split; try assumption. now exists (c :: key). }
  destruct (handleCreatePlaylist_propagates request w s _ Hacc Hthrow)
    as [H|(songs & s1 & _ & [H|(results & s2 & _ & H)])].
  - apply getAverageSetlist_throws_Error in H. discriminate.
  - destruct (matchAllTracks_console (present (artistName request))
                (present (accessToken request)) songs w s1) as [_ Hauth].
    specialize (Hauth _ H). discriminate.
  - apply createPlaylist_throws in H.
    destruct H as [H|[H|(m' & H)]]; discriminate.
Qed.

(** In an accepted environment the key of the setlist service is not
    blank. *)
Lemma validateEnvironment_outcome_key env cfg :
  validateEnvironment env = Ok cfg ->
  ~ blank (env "SETLISTFM_API_KEY"%string).
Proof.
  unfold validateEnvironment. cbv zeta.
  destruct (filter _ requiredVars) as [|v l] eqn:E; [|discriminate].
  intros _ Hb. apply missingOrBlank_blank in Hb.
  assert (Hin : In "SETLISTFM_API_KEY"%string
                  (filter (fun v => missingOrBlank (env v)) requiredVars)).
  { apply filter_In. split; [simpl; auto | exact Hb]. }
  now rewrite E in Hin.
Qed.

(** X17: in an environment that [validateEnvironment] accepts,
    [handleCreatePlaylist] never fails for want of the key of the setlist
    service: its check of [SETLISTFM_API_KEY] is weaker than the one of the
    validator. *)
Theorem validateEnvironment_key_accepted env cfg request w s e :
  validateEnvironment env = Ok cfg ->
  env "SETLISTFM_API_KEY"%string = SETLISTFM_API_KEY w ->
  result (handleCreatePlaylist request w s) = Throw e ->
  forall m,
    e <> ValidationError m
           [("field"%string, VString (str "SETLISTFM_API_KEY"))].
Proof.
  intros Hok Hkey Hthrow m ->.
  pose proof (validateEnvironment_outcome_key env cfg Hok) as Hnb.
  rewrite Hkey in Hnb.
  apply handleCreatePlaylist_validation_inv in Hthrow.
  destruct Hthrow as [[_ H]|[[_ H]|[[_ H]|[[H|H] _]]]];
    try discriminate H; rewrite H in Hnb; now apply Hnb.
Qed.

(** ** The request of the handler *)

Lemma truthy_Some x : truthy x = true -> exists v, x = Some v /\ v <> [].
Proof.
  destruct x as [[|c v]|]; try discriminate. intros _.
  exists (c :: v). now split.
Qed.

(** X18: what the handler makes of an event.  The request it passes on has
    the artist id and the artist name of the query as they are, both not
    empty, a token that is not empty and a year exactly when the query gives
    one; otherwise it throws a [ValidationError] whose field is [artistId],
    [artistName], [year] or [access_token]. *)
Theorem handlerRequest_outcome event :
  match handlerRequest event with
  | Ok req =>
      artistId req = queryParam event "artistId" /\
      artistName req = queryParam event "artistName" /\
      (exists a, artistId req = Some a /\ a <> []) /\
      (exists n, artistName req = Some n /\ n <> []) /\
      (exists t, accessToken req = Some t /\ t <> []) /\
      (req_year req = None <-> truthy (queryParam event "year") = false)
  | Throw e =>
      exists m field more,
        e = ValidationError m
              (("field"%string, VString (str field)) :: more) /\
        In field ["artistId"; "artistName"; "year"; "access_token"]%string
  end.
Proof.
  unfold handlerRequest. cbv zeta.
  destruct (truthy (queryParam event "artistId")) eqn:Ea; simpl negb;
    cbv iota.
  2:{ eexists _, _, _. unfold fieldError. split; [reflexivity|].
      simpl; auto. }
  destruct (truthy (queryParam event "artistName")) eqn:En; simpl negb;
    cbv iota.
  2:{ eexists _, _, _. unfold fieldError. split; [reflexivity|].
      simpl; auto. }
  destruct (truthy (queryParam event "year")) eqn:Ey.
  - destruct (parseInt10 _) as [y|] eqn:Ep; simpl andb; cbv iota.
    2:{ eexists _, _, _. split; [reflexivity|]. simpl; auto. }
    match goal with
    | |- context [if negb (truthy ?t) then Throw _ else _] =>
        destruct (truthy t) eqn:Et
    end; simpl negb; cbv iota.
    2:{ eexists _, _, _. unfold fieldError. split; [reflexivity|].
        simpl; auto. }
    simpl. repeat split; try (now apply truthy_Some); discriminate.
  - simpl andb. cbv iota.
    match goal with
    | |- context [if negb (truthy ?t) then Throw _ else _] =>
        destruct (truthy t) eqn:Et
    end; simpl negb; cbv iota.
    2:{ eexists _, _, _. unfold fieldError. split; [reflexivity|].
        simpl; auto. }
    simpl. repeat split; try (now apply truthy_Some); auto.
Qed.

(** X19: a token sent as [bearer] writes it, in the header [authorization],
    is the token of the request, whatever the query says about the token: the
    header wins over the parameter [access_token]. *)
Theorem handlerRequest_bearer event token :
  truthy (queryParam event "artistId") = true ->
  truthy (queryParam event "artistName") = true ->
  (truthy (queryParam event "year") = true ->
   parseInt10 (present (queryParam event "year")) <> None) ->
  headerOf event "authorization" = Some (bearer token) ->
  plainToken token ->
  matchBearer (bearer token) = Some token /\
  exists req,
    handlerRequest event = Ok req /\ accessToken req = Some token.
Proof.
  intros Ha Hn Hy Hh Htoken.
  destruct token as [|c token]; [contradiction|].
  assert (Hmatch : matchBearer (bearer (c :: token)) = Some (c :: token)).
  { destruct Htoken as [Hc Hline].
    change (matchBearer (bearer (c :: token)))
      with (spacesThenRest (32%N :: c :: token)).
    cbn [spacesThenRest]. change (isWhiteSpace 32) with true.
    rewrite Hc. cbv iota. unfold restOfLine. now rewrite Hline. }
  split; [exact Hmatch|].
  unfold handlerRequest. cbv zeta. rewrite Ha, Hn. simpl negb. cbv iota.
  assert (Hyear : truthy (queryParam event "year")
                  && match (if truthy (queryParam event "year")
                            then parseInt10
                                   (present (queryParam event "year"))
                            else None) with
                     | Some _ => false
                     | None => true
                     end = false).
  { destruct (truthy (queryParam event "year")); [|reflexivity].
    destruct (parseInt10 _); [reflexivity | now elim Hy]. }
  rewrite Hyear, Hh.
  change (orElse (Some (bearer (c :: token)))
            (headerOf event "Authorization"))
    with (Some (bearer (c :: token))).
  change (truthy (Some (bearer (c :: token)))) with true. cbv iota.
  change (present (Some (bearer (c :: token)))) with (bearer (c :: token)).
  rewrite Hmatch.
  change (truthy (Some (c :: token))) with true. simpl negb. cbv iota.
  eexists. split; reflexivity.
Qed.

(** ** Years as text *)

Lemma leadingDigits_uint d : forall tail,
  leadingDigits (str (NilEmpty.string_of_uint d) ++ tail)
  = uintDigits d ++ leadingDigits tail.
Proof.
  induction d; intros tail; simpl; try reflexivity;
    unfold str in IHd; now rewrite IHd.
Qed.

Lemma decimalValue_acc d : forall acc,
  fold_left (fun a k => 10 * a + k) (uintDigits d) (Z.pos acc)
  = Z.pos (Pos.of_uint_acc d acc).
Proof.
  induction d; intros acc; cbn [uintDigits fold_left Pos.of_uint_acc];
    try reflexivity; rewrite <- IHd; f_equal; lia.
Qed.

Lemma decimalValue_uint d : decimalValue (uintDigits d) = Z.of_uint d.
Proof.
  unfold decimalValue, Z.of_uint.
  induction d; simpl; try reflexivity; try exact IHd;
    match goal with
    | |- fold_left _ _ ?k = _ =>
        change k with (Z.pos (Z.to_pos k))
    end; now rewrite decimalValue_acc.
Qed.

(** [parseInt] on a string that begins with a digit, or with [-] and a
    digit. *)
Lemma parseInt10_digit c r :
  digitOf c <> None ->
  parseInt10 (c :: r)
  = Some (roundDouble (decimalValue (leadingDigits (c :: r)))) /\
  parseInt10 (45%N :: c :: r)
  = Some (roundDouble (- decimalValue (leadingDigits (c :: r)))).
Proof.
  intros Hd. unfold digitOf in Hd.
  destruct ((48 <=? c) && (c <=? 57))%N eqn:E; [|congruence].
  apply andb_true_iff in E as [Hlo Hhi].
  apply N.leb_le in Hlo, Hhi.
  assert (Hc : (c = 48 \/ c = 49 \/ c = 50 \/ c = 51 \/ c = 52 \/ c = 53
                \/ c = 54 \/ c = 55 \/ c = 56 \/ c = 57)%N) by lia.
  destruct Hc as [->|[->|[->|[->|[->|[->|[->|[->|[->| ->]]]]]]]]];
    (split;
     [ unfold parseInt10; cbn [trimStart];
       match goal with
       | |- context [isWhiteSpace ?x] => change (isWhiteSpace x) with false
       end; cbv iota zeta;
       match goal with
       | |- context [leadingDigits (?x :: r)] =>
           destruct (leadingDigits (x :: r)) eqn:El;
           [cbn [leadingDigits] in El; discriminate El | do 2 f_equal; lia]
       end
     | unfold parseInt10; cbn [trimStart];
       change (isWhiteSpace 45) with false; cbv iota zeta;
       match goal with
       | |- context [leadingDigits (?x :: r)] =>
           destruct (leadingDigits (x :: r)) eqn:El;
           [cbn [leadingDigits] in El; discriminate El | do 2 f_equal; lia]
       end ]).
Qed.

(** [parseInt] reads the decimal numeral of an integer, whatever follows it
    that is no digit, as the double nearest to the integer. *)
Lemma parseInt10_decimal y tail :
  noDigitAhead tail ->
  parseInt10 (decimal y ++ tail) = Some (roundDouble y).
Proof.
  intros Htail. unfold noDigitAhead in Htail.
  assert (Hgo : forall d,
             exists c r,
               str (NilZero.string_of_uint d) ++ tail = c :: r /\
               digitOf c <> None /\
               decimalValue (leadingDigits (c :: r)) = Z.of_uint d).
  { intros d.
    assert (Hnil : d = Decimal.Nil \/
                   (d <> Decimal.Nil /\
                    NilZero.string_of_uint d = NilEmpty.string_of_uint d)).
    { destruct d; auto; right; split; try discriminate; reflexivity. }
    destruct Hnil as [->|[Hd ->]].
    - exists 48%N, tail. split; [reflexivity|]. split; [discriminate|].
      cbn [leadingDigits]. change (digitOf 48) with (Some 0). cbv iota.
      now rewrite Htail.
    - pose proof (leadingDigits_uint d tail) as Hl.
      rewrite Htail, app_nil_r in Hl.
      assert (Hne : uintDigits d <> []) by (destruct d; simpl; congruence).
      destruct (str (NilEmpty.string_of_uint d) ++ tail) as [|c r].
      + simpl in Hl. congruence.
      + exists c, r. split; [reflexivity|]. split.
        * intros Hc. cbn [leadingDigits] in Hl. rewrite Hc in Hl.
          congruence.
        * rewrite Hl. apply decimalValue_uint. }
  rewrite <- (DecimalZ.of_to y) at 2.
  unfold decimal.
  destruct (Z.to_int y) as [d|d]; cbn [NilZero.string_of_int Z.of_int].
  - destruct (Hgo d) as (c & r & -> & Hc & <-).
    now apply parseInt10_digit.
  - change (str (String "-" (NilZero.string_of_uint d)) ++ tail)
      with (45%N :: str (NilZero.string_of_uint d) ++ tail).
    destruct (Hgo d) as (c & r & -> & Hc & <-).
    now apply parseInt10_digit.
Qed.

(** [parseInt] reads the text of a safe integer back. *)
Lemma parseInt10_numberToString y tail :
  safeInteger y -> noDigitAhead tail ->
  parseInt10 (numberToString y ++ tail) = Some y.
Proof.
  unfold safeInteger. intros Hy Htail.
  rewrite numberToString_decimal by lia.
  rewrite (parseInt10_decimal y tail Htail).
  f_equal. apply roundDouble_exact. lia.
Qed.

(** X20: a year given in the query as the text of a safe integer, followed
    by anything that does not begin with a digit, is read as that integer:
    [parseInt] undoes the conversion that writes the year into the playlist
    name, and text after the digits is ignored, not refused. *)
Theorem handlerRequest_year event y tail :
  safeInteger y ->
  queryParam event "year" = Some (numberToString y ++ tail) ->
  noDigitAhead tail ->
  parseInt10 (numberToString y ++ tail) = Some y /\
  match handlerRequest event with
  | Ok req => req_year req = Some y
  | Throw e =>
      forall m more,
        e <> ValidationError m
               (("field"%string, VString (str "year")) :: more)
  end.
Proof.
  intros Hsafe Hq Htail.
  pose proof (parseInt10_numberToString y tail Hsafe Htail) as Hparse.
  split; [exact Hparse|].
  assert (Htruthy : truthy (Some (numberToString y ++ tail)) = true).
  { destruct (numberToString y ++ tail); [discriminate Hparse | reflexivity]. }
  unfold handlerRequest. cbv zeta. rewrite Hq, Htruthy.
  change (present (Some (numberToString y ++ tail)))
    with (numberToString y ++ tail).
  rewrite Hparse. simpl andb. cbv iota.
  destruct (truthy (queryParam event "artistId")); simpl negb; cbv iota;
    [|unfold fieldError; intros m more; discriminate].
  destruct (truthy (queryParam event "artistName")); simpl negb; cbv iota;
    [|unfold fieldError; intros m more; discriminate].
  match goal with
  | |- context [if negb (truthy ?t) then Throw _ else _] =>
      destruct (truthy t)
  end; simpl negb; cbv iota;
    [reflexivity | unfold fieldError; intros m more; discriminate].
Qed.

Lemma handlerRequest_fields event req :
  handlerRequest event = Ok req ->
  truthy (artistId req) = true /\ truthy (artistName req) = true /\
  truthy (accessToken req) = true.
Proof.
  unfold handlerRequest. cbv zeta.
  destruct (truthy (queryParam event "artistId")) eqn:Ea; simpl negb;
    cbv iota; [|discriminate].
  destruct (truthy (queryParam event "artistName")) eqn:En; simpl negb;
    cbv iota; [|discriminate].
  match goal with
  | |- context [if ?b then Throw (ValidationError _ _) else _] =>
      destruct b
  end; [discriminate|].
  match goal with
  | |- context [if negb (truthy ?t) then Throw _ else _] =>
      destruct (truthy t) eqn:Et
  end; simpl negb; cbv iota; [|discriminate].
  intros [= <-]. simpl. auto.
Qed.

(** X21: the handler lets through what [handleCreatePlaylist] refuses: when
    the orchestrator answers a request of the handler with a
    [ValidationError], either the key of the setlist service is missing or
    empty, or the field it names is a value that is not empty and made of
    white space only. *)
Theorem handlerRequest_then_validation event req w s m d :
  handlerRequest event = Ok req ->
  result (handleCreatePlaylist req w s) = Throw (ValidationError m d) ->
  (SETLISTFM_API_KEY w = None \/ SETLISTFM_API_KEY w = Some []) \/
  exists field v,
    d = [("field"%string, VString (str field))] /\
    ((field = "accessToken"%string /\ accessToken req = Some v) \/
     (field = "artistId"%string /\ artistId req = Some v) \/
     (field = "artistName"%string /\ artistName req = Some v)) /\
    v <> [] /\ Forall (fun c => isWhiteSpace c = true) v.
Proof.
  intros Hreq Hthrow.
  destruct (handlerRequest_fields _ _ Hreq) as (Hi & Hn & Ht).
  assert (Hws : forall x, truthy x = true -> missingOrBlank x = true ->
                 exists v, x = Some v /\ v <> []
                           /\ Forall (fun c => isWhiteSpace c = true) v).
  { intros x Hx Hb. destruct (truthy_Some _ Hx) as (v & -> & Hv).
    exists v. split; [reflexivity|]. split; [exact Hv|].
    apply trim_nil. now apply (missingOrBlank_blank (Some v)). }
  apply handleCreatePlaylist_validation_inv in Hthrow.
  destruct Hthrow as [[Hb ->]|[[Hb ->]|[[Hb ->]|[Hk _]]]].
  - right. destruct (Hws _ Ht Hb) as (v & Hv & Hne & Hall).
    exists "accessToken"%string, v. auto.
  - right. destruct (Hws _ Hi Hb) as (v & Hv & Hne & Hall).
    exists "artistId"%string, v. repeat split; auto.
  - right. destruct (Hws _ Hn Hb) as (v & Hv & Hne & Hall).
    exists "artistName"%string, v. repeat split; auto.
  - left. exact Hk.
Qed.

(** * The further properties on concrete runs *)

Import Cases.

Lemma getAverageSetlist_returns_ranking_witness :
  let params := {| asp_artistId := artist; asp_year := Some 2024 |} in
  result (getAverageSetlist params (str "k") worldLastYear initial)
  = Ok [rankedSong "X" 1] /\
  [rankedSong "X" 1] <> [] /\
  map position [rankedSong "X" 1] = map Z.of_nat (seq 1 1) /\
  NoDup (map name [rankedSong "X" 1]).
Proof.
  split; [reflexivity|].
  exact (getAverageSetlist_returns_ranking worldLastYear initial
           {| asp_artistId := artist; asp_year := Some 2024 |} (str "k")
           [rankedSong "X" 1] eq_refl).
Defined.

Lemma getAverageSetlist_throws_witness :
  let params := {| asp_artistId := artist; asp_year := Some 2024 |} in
  let e := DataNotFoundError (noDataMessage artist 2024 2023)
             [("artistId"%string, VString artist);
              ("targetYear"%string, VNumber 2024);
              ("retryYear"%string, VNumber 2023)] in
  result (getAverageSetlist params (str "k") worldSilent initial) = Throw e /\
  (instanceofExternalAPIError e = true \/
   instanceofDataNotFoundError e = true).
Proof.
  split; [reflexivity|].
  exact (getAverageSetlist_throws worldSilent initial
           {| asp_artistId := artist; asp_year := Some 2024 |} (str "k")
           _ eq_refl).
Defined.

Lemma getAverageSetlist_service_failure_witness :
  let run :=
    getAverageSetlist {| asp_artistId := artist; asp_year := Some 2024 |}
      (str "k") worldOffline initial in
  issued run = [GetSetlists (setlistsUrl artist) 2024 (str "k")] /\
  result run
  = Throw (ExternalAPIError
             (str "setlist.fm API request failed: Request failed with status code 500")
             (str "setlist.fm")
             [("statusCode"%string, VNumber 500);
              ("year"%string, VNumber 2024)]) /\
  List.length (console (fst run)) = 1%nat.
Proof.
  destruct (getAverageSetlist_service_failure worldOffline initial artist
              (Some 2024) (str "k")
              (AxiosError (str "Request failed with status code 500")
                 (Some 500)) eq_refl)
    as (Hissued & Haxios & _).
  split; [exact Hissued | exact (Haxios eq_refl)].
Defined.

Lemma getAverageSetlist_fallback_failure_witness :
  result (getAverageSetlist {| asp_artistId := artist; asp_year := None |}
            (str "k") worldFallbackDown initial)
  = Throw (ExternalAPIError
             (str "setlist.fm API request failed: Request failed with status code 500")
             (str "setlist.fm")
             [("statusCode"%string, VNumber 500);
              ("year"%string, VNumber 2023)]).
Proof.
  exact (getAverageSetlist_fallback_failure worldFallbackDown initial artist
           None (str "k") (performances [])
           (AxiosError (str "Request failed with status code 500")
              (Some 500))
           eq_refl eq_refl eq_refl eq_refl eq_refl).
Defined.

Lemma sortedSongs_played_only_witness :
  played oneSet = played threeRecords /\
  sortedSongs (countSongs oneSet) = sortedSongs (countSongs threeRecords).
Proof.
  split; [reflexivity|].
  exact (sortedSongs_played_only oneSet threeRecords eq_refl).
Defined.

Lemma matchAllTracks_quiet_witness :
  let songs := [rankedSong "A" 1; rankedSong "B" 2; rankedSong "C" 3] in
  let run := matchAllTracks songs (str "Band") (str "token") worldExpired
               initial in
  result run
  = Throw (AuthenticationError (str "Invalid or expired access token")
             [("statusCode"%string, VNumber 401)]) /\
  console (fst run) = [] /\
  exists k,
    issued run
    = map (fun x => searchCall (str "Band") (str "token") (name x))
        (firstn k songs).
Proof.
  split; [reflexivity|].
  destruct (matchAllTracks_quiet (str "Band") (str "token")
              [rankedSong "A" 1; rankedSong "B" 2; rankedSong "C" 3]
              worldExpired initial) as (Hconsole & _ & Hlookups).
  split; [exact Hconsole | exact Hlookups].
Defined.

Lemma createPlaylist_failure_witness :
  let e := AxiosError (str "Request failed with status code 401")
             (Some 401) in
  builderRejects (build []) worldLocked initial e /\
  result (createPlaylist (build []) worldLocked initial)
  = Throw (AuthenticationError (str "Invalid or expired access token")
             [("statusCode"%string, VNumber 401)]).
Proof.
  assert (Hrej : builderRejects (build []) worldLocked initial
                   (AxiosError (str "Request failed with status code 401")
                      (Some 401))) by (left; reflexivity).
  split; [exact Hrej|].
  destruct (createPlaylist_failure (build []) worldLocked initial _ Hrej)
    as (Hauth & _).
  exact (Hauth eq_refl).
Defined.

Lemma createPlaylist_stops_witness :
  issued (createPlaylist (build ["t1"]%string) worldLocked initial)
  = [GetMe meUrl (bearer (str "token"))].
Proof.
  destruct (createPlaylist_stops (build ["t1"]%string) worldLocked initial)
    as (Hidentity & _).
  exact (Hidentity _ eq_refl).
Defined.

Lemma handleCreatePlaylist_missing_key_witness :
  handleCreatePlaylist (request None) worldNoKey initial
  = (initial,
     Throw (ValidationError (str "setlist.fm API key is not configured")
              [("field"%string, VString (str "SETLISTFM_API_KEY"))])).
Proof.
  exact (handleCreatePlaylist_missing_key (request None) worldNoKey initial
           eq_refl eq_refl eq_refl (or_introl eq_refl)).
Defined.

Lemma handleCreatePlaylist_throws_witness :
  let e := AuthenticationError (str "Invalid or expired access token")
             [("statusCode"%string, VNumber 401)] in
  result (handleCreatePlaylist (request (Some 2024)) worldExpired initial)
  = Throw e /\
  ((exists m d, e = ValidationError m d) \/
   instanceofExternalAPIError e = true \/
   instanceofDataNotFoundError e = true \/
   instanceofAuthenticationError e = true \/
   exists m, e = OtherError (str "Failed to create playlist" ++ m)) /\
  e <> OtherError (str "An unexpected error occurred").
Proof.
  split; [reflexivity|].
  destruct (handleCreatePlaylist_throws (request (Some 2024)) worldExpired
              initial _ eq_refl) as (Hkinds & Hnot & _).
  split; [exact Hkinds | exact Hnot].
Defined.

Lemma handleCreatePlaylist_tracks_in_order_witness :
  let run := handleCreatePlaylist (request (Some 2024)) worldShows initial in
  result run
  = Ok {| playlistId := str "p1"; tracksAdded := 2; year := 2024 |} /\
  exists songs s1 trackResults s2,
    getAverageSetlist {| asp_artistId := artist; asp_year := Some 2024 |}
      (str "k") worldShows initial = (s1, Ok songs) /\
    matchAllTracks songs (str "Band") (str "token") worldShows s1
    = (s2, Ok trackResults) /\
    map songName trackResults = map name songs /\
    exists build,
      issued run = calls s2 ++ build /\
      (forall url uris authorization,
          In (PostTracks url uris authorization) build ->
          map Some uris = map trackUri (filter found trackResults)) /\
      (filter found trackResults <> [] ->
       exists url uris authorization,
         In (PostTracks url uris authorization) build).
Proof.
  split; [reflexivity|].
  exact (handleCreatePlaylist_tracks_in_order (request (Some 2024))
           worldShows initial _ eq_refl).
Defined.

Lemma handleCreatePlaylist_success_silent_witness :
  result (handleCreatePlaylist (request (Some 2024)) worldShows initial)
  = Ok {| playlistId := str "p1"; tracksAdded := 2; year := 2024 |} /\
  console (fst (handleCreatePlaylist (request (Some 2024)) worldShows
                  initial)) = [].
Proof.
  split; [reflexivity|].
  exact (handleCreatePlaylist_success_silent (request (Some 2024))
           worldShows initial _ eq_refl).
Defined.

Lemma handleCreatePlaylist_answer_witness :
  let e := ExternalAPIError
             (str "setlist.fm API request failed: Request failed with status code 500")
             (str "setlist.fm")
             [("statusCode"%string, VNumber 500);
              ("year"%string, VNumber 2024)] in
  result (handleCreatePlaylist (request (Some 2024)) worldOffline initial)
  = Throw e /\
  getStatusCode e = 502 /\
  eb_code (error (formatErrorResponse e)) = str "EXTERNALAPI" /\
  eb_details (error (formatErrorResponse e))
  = Some [("serviceName"%string, VString (str "setlist.fm"));
          ("statusCode"%string, VNumber 500);
          ("year"%string, VNumber 2024)].
Proof.
  split; [reflexivity|].
  destruct (handleCreatePlaylist_answer (request (Some 2024)) worldOffline
              initial _ eq_refl) as (_ & Hanswer).
  destruct Hanswer
    as [(H & _)|[(Hstatus & Hcode & _)|[(H & _)|[(H & _)|(H & _)]]]];
    try discriminate H.
  split; [exact Hstatus|]. split; [exact Hcode | reflexivity].
Defined.

Lemma validateEnvironment_key_accepted_witness :
  let blankToken :=
    {| artistId := Some artist; artistName := Some (str "Band");
       req_year := None; accessToken := Some [] |} in
  let e := ValidationError (str "Access token is required")
             [("field"%string, VString (str "accessToken"))] in
  (exists cfg, validateEnvironment fullEnv = Ok cfg) /\
  result (handleCreatePlaylist blankToken worldShows initial) = Throw e /\
  forall m,
    e <> ValidationError m
           [("field"%string, VString (str "SETLISTFM_API_KEY"))].
Proof.
  split; [eexists; reflexivity|]. split; [reflexivity|].
  exact (validateEnvironment_key_accepted fullEnv _
           {| artistId := Some artist; artistName := Some (str "Band");
              req_year := None; accessToken := Some [] |}
           worldShows initial _ eq_refl eq_refl eq_refl).
Defined.

Lemma handlerRequest_bearer_witness :
  let event :=
    eventOf [("artistId", "53926dfc"); ("artistName", "Band");
             ("access_token", "other")]%string
      [("authorization", "Bearer token")]%string in
  matchBearer (bearer (str "token")) = Some (str "token") /\
  exists req,
    handlerRequest event = Ok req /\ accessToken req = Some (str "token").
Proof.
  apply (handlerRequest_bearer
           (eventOf [("artistId", "53926dfc"); ("artistName", "Band");
                     ("access_token", "other")]%string
              [("authorization", "Bearer token")]%string)
           (str "token")); try reflexivity.
  - discriminate.
  - split; reflexivity.
Defined.

Lemma handlerRequest_year_witness :
  let event :=
    eventOf [("artistId", "53926dfc"); ("artistName", "Band");
             ("year", "2024abc"); ("access_token", "token")]%string [] in
  safeInteger 2024 /\
  noDigitAhead (str "abc") /\
  parseInt10 (numberToString 2024 ++ str "abc") = Some 2024 /\
  match handlerRequest event with
  | Ok req => req_year req = Some 2024
  | Throw e =>
      forall m more,
        e <> ValidationError m
               (("field"%string, VString (str "year")) :: more)
  end.
Proof.
  split; [reflexivity|]. split; [reflexivity|].
  exact (handlerRequest_year
           (eventOf [("artistId", "53926dfc"); ("artistName", "Band");
                     ("year", "2024abc");
                     ("access_token", "token")]%string [])
           2024 (str "abc") eq_refl eq_refl eq_refl).
Defined.

Lemma handlerRequest_then_validation_witness :
  let event :=
    eventOf [("artistId", "  "); ("artistName", "Band");
             ("access_token", "token")]%string [] in
  let req := {| artistId := Some (str "  "); artistName := Some (str "Band");
                req_year := None; accessToken := Some (str "token") |} in
  let d := [("field"%string, VString (str "artistId"))] in
  handlerRequest event = Ok req /\
  result (handleCreatePlaylist req worldShows initial)
  = Throw (ValidationError (str "Artist ID is required") d) /\
  ((SETLISTFM_API_KEY worldShows = None
    \/ SETLISTFM_API_KEY worldShows = Some []) \/
   exists field v,
     d = [("field"%string, VString (str field))] /\
     ((field = "accessToken"%string /\ accessToken req = Some v) \/
      (field = "artistId"%string /\ artistId req = Some v) \/
      (field = "artistName"%string /\ artistName req = Some v)) /\
     v <> [] /\ Forall (fun c => isWhiteSpace c = true) v).
Proof.
  split; [reflexivity|]. split; [reflexivity|].
  exact (handlerRequest_then_validation
           (eventOf [("artistId", "  "); ("artistName", "Band");
                     ("access_token", "token")]%string [])
           _ worldShows initial _ _ eq_refl eq_refl).
Defined.

Lemma validateEnvironment_outcome_witness :
  (exists cfg,
    validateEnvironment fullEnv = Ok cfg /\
    (forall v, In v requiredVars -> ~ blank (fullEnv v)) /\
    fullEnv "SETLISTFM_API_KEY"%string = Some (env_SETLISTFM_API_KEY cfg)) /\
  (exists missing,
    NoDup missing /\
    subsequence missing requiredVars /\
    (forall v, In v missing <-> In v requiredVars /\ blank (partialEnv v)) /\
    validateEnvironment partialEnv
    = Throw (OtherError (missingVarsMessage missing))).
Proof.
  split.
  - pose proof (validateEnvironment_outcome fullEnv) as H.
    destruct (validateEnvironment fullEnv) as [cfg|e] eqn:E;
      [|discriminate E].
    exists cfg. split; [reflexivity|].
    destruct H as (Hall & _ & _ & _ & Hkey).
    split; [exact Hall | exact Hkey].
  - pose proof (validateEnvironment_outcome partialEnv) as H.
    destruct (validateEnvironment partialEnv) as [cfg|e] eqn:E;
      [discriminate E|].
    destruct H as (missing & _ & Hin & Hnodup & Hsub & ->).
    exists missing. auto.
Defined.

(** The message names the two variables in the order of the list. *)
Example scenario_missing_variables :
  validateEnvironment partialEnv
  = Throw (OtherError
             (str "Missing required environment variables: SPOTIFY_CLIENT_SECRET, SETLISTFM_API_KEY"
              ++ [10%N]
              ++ str "Please ensure all required variables are set in your .env file or environment."
              ++ [10%N] ++ str "See .env.example for reference.")).
Proof. reflexivity. Qed.

Lemma handlerRequest_outcome_witness :
  let event :=
    eventOf [("artistId", "53926dfc"); ("artistName", "Band")]%string [] in
  exists m field more,
    handlerRequest event
    = Throw (ValidationError m
               (("field"%string, VString (str field)) :: more)) /\
    In field ["artistId"; "artistName"; "year"; "access_token"]%string.
Proof.
  pose proof (handlerRequest_outcome
                (eventOf [("artistId", "53926dfc");
                          ("artistName", "Band")]%string [])) as H.
  destruct (handlerRequest _) as [req|e] eqn:E; [discriminate E|].
  destruct H as (m & field & more & -> & Hin).
  exists m, field, more. split; [exact E | exact Hin].
Defined.
